(** * dbt-exposures-crawler: the Tableau crawler

    A shallow embedding of [src/exposurescrawler/crawlers/tableau.py]:
    the exclusion predicate [_should_ignore_workbook], the aggregator
    [_parse_tables_from_sql], the merge of the two per-source mappings and
    the exposure-building loop of [tableau_crawler].

    Python dictionaries are insertion-ordered association lists with the
    update operations the crawler uses; Python exceptions are the [Raise]
    case of [result]; the calls to the Tableau client and to the manifest
    are recorded, in order, in a trace of events.  Calls to [logger()] do
    not influence control flow and are left out. *)

From Stdlib Require Import Ascii String.
From stdpp Require Import base option list strings.

Set Default Proof Using "Type".

(** ** Exceptions *)

(** The outcome of a Python call: a value, or a raised exception. *)
Inductive result (A : Type) : Type :=
| Ok (a : A)
| Raise (e : string).
Arguments Ok {A} a.
Arguments Raise {A} e.

#[global] Instance result_ret : MRet result := @Ok.
#[global] Instance result_bind : MBind result := fun A B f r =>
  match r with
  | Ok a => f a
  | Raise e => Raise e
  end.

Definition is_ok {A} (r : result A) : bool :=
  match r with Ok _ => true | Raise _ => false end.

(** ** Python dictionaries *)

Module PyDict.
Section dict.
Context {K V : Type} `{EqDecision K}.

(** [d.items()], in insertion order. *)
Definition keys (d : list (K * V)) : list K := d.*1.
Definition values (d : list (K * V)) : list V := d.*2.

(** A dictionary holds a key once. *)
Definition wf (d : list (K * V)) : Prop := NoDup (keys d).

(** [d.get(k)] *)
Fixpoint get (k : K) (d : list (K * V)) : option V :=
  match d with
  | [] => None
  | (k', v) :: d' => if decide (k = k') then Some v else get k d'
  end.

(** The object stored under [k] is replaced by [f] of it (an in-place
    update of a stored, mutable value). *)
Fixpoint alter (f : V -> V) (k : K) (d : list (K * V)) : list (K * V) :=
  match d with
  | [] => []
  | (k', v) :: d' =>
      if decide (k = k') then (k', f v) :: d' else (k', v) :: alter f k d'
  end.

(** [d[k] = v]: a present key keeps its position, a new key goes last. *)
Definition setitem (k : K) (v : V) (d : list (K * V)) : list (K * V) :=
  match get k d with
  | Some _ => alter (fun _ => v) k d
  | None => d ++ [(k, v)]
  end.

(** [d.setdefault(k, v)], the dictionary afterwards. *)
Definition setdefault (k : K) (v : V) (d : list (K * V)) : list (K * V) :=
  match get k d with
  | Some _ => d
  | None => d ++ [(k, v)]
  end.

End dict.
End PyDict.

(** Truth value of a Python list, dict or string: non-empty. *)
Definition truthy {A} (l : list A) : bool :=
  match l with [] => false | _ :: _ => true end.

Definition str_truthy (s : string) : bool :=
  match s with EmptyString => false | String _ _ => true end.

(** ** Collaborators of the crawler *)

(** A workbook as the REST client returns it; [project_name] may be
    [None] as well as empty. *)
Record Workbook : Type := mkWorkbook {
  wb_name : string;
  project_name : option string;
  owner_id : string
}.

(** The key of the mappings ([WorkbookReference], declared in
    [exposurescrawler.tableau.models]): hashable, with an [id]. *)
Class Reference (R : Type) : Type := {
  reference_eq_dec :: EqDecision R;
  reference_id : R -> string
}.

(** [exposurescrawler.utils.query_parsing.search_model_in_query]: a
    dictionary from unique ids to manifest nodes, or an exception. *)
Class QueryParsing (Model Models : Type) : Type := {
  search_model_in_query : string -> Models -> result (list (string * Model))
}.

(** [TableauRestClient]: each request answers or raises. *)
Class TableauRestClient (User : Type) : Type := {
  retrieve_workbook : string -> result Workbook;
  retrieve_user : string -> result User
}.

(** [DbtExposure.from_tableau_workbook] *)
Class ExposureFactory (User Model Exposure : Type) : Type := {
  from_tableau_workbook :
    string -> Workbook -> User -> list Model -> Exposure
}.

(** ** [_should_ignore_workbook] *)

Definition _should_ignore_workbook
    (workbook : Workbook) (projects_to_ignore : list string) : bool :=
  match project_name workbook with
  | None => true
  | Some name =>
      if negb (str_truthy name) then true
      else bool_decide (name ∈ projects_to_ignore)
  end.

(** ** [_parse_tables_from_sql] *)

Section Aggregator.
Context {R Model Models : Type} `{Reference R} `{QueryParsing Model Models}.

(** The inner loop over the snippets of one workbook; [all_found] is the
    list being extended. *)
Fixpoint scan_sqls (models : Models) (custom_sqls : list string)
    (all_found : list Model) : result (list Model) :=
  match custom_sqls with
  | [] => Ok all_found
  | custom_sql :: rest =>
      models_found_query ← search_model_in_query custom_sql models;
      if truthy models_found_query
      then scan_sqls models rest (all_found ++ PyDict.values models_found_query)
      else scan_sqls models rest all_found
  end.

(** The outer loop over [workbooks_sqls.items()]. *)
Fixpoint parse_loop (models : Models) (items : list (R * list string))
    (output : list (R * list Model)) : result (list (R * list Model)) :=
  match items with
  | [] => Ok output
  | (workbook_reference, custom_sqls) :: rest =>
      all_found ← scan_sqls models custom_sqls [];
      if truthy all_found
      then parse_loop models rest (PyDict.setitem workbook_reference all_found output)
      else parse_loop models rest output
  end.

Definition _parse_tables_from_sql (workbooks_sqls : list (R * list string))
    (models : Models) : result (list (R * list Model)) :=
  parse_loop models workbooks_sqls [].

(** *** The aggregation as the specification words it

    "For each dashboard, apply the matcher to every owned snippet,
    concatenate the values of all non-empty per-snippet match mappings
    into one list, and include the dashboard in the output only if that
    list is non-empty." *)

(** The values of the matcher's mapping for one snippet. *)
Definition snippet_values (models : Models) (sql : string) : list Model :=
  match search_model_in_query sql models with
  | Ok models_found_query => PyDict.values models_found_query
  | Raise _ => []
  end.

Definition concat_matches (models : Models) (sqls : list string) : list Model :=
  concat (snippet_values models <$> sqls).

Definition aggregate_spec (models : Models)
    (workbooks_sqls : list (R * list string)) : list (R * list Model) :=
  omap (fun item : R * list string =>
          match concat_matches models item.2 with
          | [] => None
          | all_found => Some (item.1, all_found)
          end) workbooks_sqls.

(** The matcher answers on every snippet of the input. *)
Definition scans_all (models : Models)
    (workbooks_sqls : list (R * list string)) : Prop :=
  ∀ ref sqls sql, (ref, sqls) ∈ workbooks_sqls → sql ∈ sqls →
    is_ok (search_model_in_query sql models) = true.

(** The matcher with a failure to scan read as "no match". *)
Definition isolated (search : string -> Models -> result (list (string * Model)))
    (sql : string) (models : Models) : result (list (string * Model)) :=
  match search sql models with
  | Ok models_found_query => Ok models_found_query
  | Raise _ => Ok []
  end.

(** ** The merge of [tableau_crawler]

    [workbooks_models.setdefault(workbook_reference, []).extend(found)]:
    the list [setdefault] returns is the one stored in the dictionary,
    and it is extended in place. *)
Definition merge_step (workbooks_models : list (R * list Model))
    (item : R * list Model) : list (R * list Model) :=
  let '(workbook_reference, found) := item in
  PyDict.alter (fun l => l ++ found) workbook_reference
    (PyDict.setdefault workbook_reference [] workbooks_models).

Definition merge_models
    (workbooks_custom_sql_models workbooks_native_sql_models : list (R * list Model))
    : list (R * list Model) :=
  foldl merge_step [] (workbooks_custom_sql_models ++ workbooks_native_sql_models).

End Aggregator.

(** ** The effects of [tableau_crawler] *)

(** What the crawler asks of its collaborators, in the order it asks. *)
Inductive event (Model Exposure : Type) : Type :=
| EvRetrieveCustomSql
| EvRetrieveNativeSql
| EvRetrieveWorkbook (workbook_id : string)
| EvRetrieveUser (user_id : string)
| EvAddExposure (exposure : Exposure) (found : list Model)
| EvSignOut
| EvPersist (method path : string).
Arguments EvRetrieveCustomSql {Model Exposure}.
Arguments EvRetrieveNativeSql {Model Exposure}.
Arguments EvRetrieveWorkbook {Model Exposure} workbook_id.
Arguments EvRetrieveUser {Model Exposure} user_id.
Arguments EvAddExposure {Model Exposure} exposure found.
Arguments EvSignOut {Model Exposure}.
Arguments EvPersist {Model Exposure} method path.

(** A computation appends to the trace and returns or raises; what was
    done before an exception stays done. *)
Definition Crawl (E A : Type) : Type := list E -> list E * result A.

#[global] Instance crawl_ret {E} : MRet (Crawl E) := fun A a tr => (tr, Ok a).
#[global] Instance crawl_bind {E} : MBind (Crawl E) := fun A B f m tr =>
  match m tr with
  | (tr', Ok a) => f a tr'
  | (tr', Raise e) => (tr', Raise e)
  end.

(** A call to a collaborator: recorded, then its outcome. *)
Definition call {E A} (ev : E) (outcome : result A) : Crawl E A :=
  fun tr => (tr ++ [ev], outcome).

(** A pure step that may raise. *)
Definition lift {E A} (outcome : result A) : Crawl E A :=
  fun tr => (tr, outcome).

(** [exposurescrawler.tableau.graphql_client] *)
Class GraphqlClient (R : Type) : Type := {
  retrieve_custom_sql : result (list (R * list string));
  retrieve_native_sql : result (list (R * list string))
}.

(** The end of a run: [tableau_client.sign_out()], a request, and
    [getattr(manifest, method)(manifest_path_or_str)], a write of the
    manifest; each returns or raises. *)
Class Closing : Type := {
  sign_out : result unit;
  persist : string -> string -> result unit
}.

(** The [manifest.add_exposure] calls of a trace. *)
Definition exposures_added {Model Exposure}
    (tr : list (event Model Exposure)) : list (Exposure * list Model) :=
  omap (fun ev => match ev with
                  | EvAddExposure exposure found => Some (exposure, found)
                  | _ => None
                  end) tr.

Definition is_persist {Model Exposure} (ev : event Model Exposure) : bool :=
  match ev with EvPersist _ _ => true | _ => false end.

Section Crawler.
Context {R User Model Models Exposure : Type}.
Context `{Reference R} `{QueryParsing Model Models} `{GraphqlClient R}.
Context `{TableauRestClient User} `{ExposureFactory User Model Exposure}.
Context `{Closing}.

Local Abbreviation Ev := (event Model Exposure).

(** The body of the loop over [workbooks_models.items()]. *)
Definition build_exposure (dbt_package_name : string)
    (tableau_projects_to_ignore : list string)
    (item : R * list Model) : Crawl Ev unit :=
  let '(workbook_reference, found) := item in
  workbook ← call (EvRetrieveWorkbook (reference_id workbook_reference))
                  (retrieve_workbook (reference_id workbook_reference));
  owner ← call (EvRetrieveUser (owner_id workbook))
               (retrieve_user (owner_id workbook));
  if _should_ignore_workbook workbook tableau_projects_to_ignore
  then mret tt
  else
    let exposure := from_tableau_workbook dbt_package_name workbook owner found in
    call (EvAddExposure exposure found) (Ok tt).

Fixpoint build_exposures (dbt_package_name : string)
    (tableau_projects_to_ignore : list string)
    (items : list (R * list Model)) : Crawl Ev unit :=
  match items with
  | [] => mret tt
  | item :: rest =>
      build_exposure dbt_package_name tableau_projects_to_ignore item;;
      build_exposures dbt_package_name tableau_projects_to_ignore rest
  end.

(** The two metadata requests of one iteration, as a value. *)
Definition fetch_metadata (item : R * list Model) : result (Workbook * User) :=
  workbook ← retrieve_workbook (reference_id item.1);
  owner ← retrieve_user (owner_id workbook);
  mret (workbook, owner).

(** The [add_exposure] calls one key of the merged mapping leads to: one
    when its workbook is fetched and not ignored, none otherwise. *)
Definition exposure_calls (dbt_package_name : string)
    (tableau_projects_to_ignore : list string)
    (item : R * list Model) : list (Exposure * list Model) :=
  match fetch_metadata item with
  | Ok (workbook, owner) =>
      if _should_ignore_workbook workbook tableau_projects_to_ignore then []
      else [(from_tableau_workbook dbt_package_name workbook owner item.2, item.2)]
  | Raise _ => []
  end.

(** [tableau_crawler] once the manifest is loaded and the client is
    configured: [models] is [manifest.retrieve_models_and_sources()],
    [method] and [manifest_path] are what the [try] block chose. *)
Definition tableau_crawler (models : Models) (dbt_package_name : string)
    (tableau_projects_to_ignore : list string)
    (method manifest_path : string) : Crawl Ev unit :=
  workbooks_custom_sqls ← call EvRetrieveCustomSql retrieve_custom_sql;
  workbooks_custom_sql_models ←
    lift (_parse_tables_from_sql workbooks_custom_sqls models);
  workbooks_native_sqls ← call EvRetrieveNativeSql retrieve_native_sql;
  workbooks_native_sql_models ←
    lift (_parse_tables_from_sql workbooks_native_sqls models);
  let workbooks_models :=
    merge_models workbooks_custom_sql_models workbooks_native_sql_models in
  build_exposures dbt_package_name tableau_projects_to_ignore workbooks_models;;
  call EvSignOut sign_out;;
  call (EvPersist method manifest_path) (persist method manifest_path).

End Crawler.

(** ** Deduplication of the depends-on list *)

Module DbtExposure.

(** Modelled from the spec: "last or first occurrence wins" (section 4.5
    step 3), which of several records with one unique id is kept. *)
Inductive tie_break : Type := FirstWins | LastWins.

(** Modelled from the spec: the exposure record of section 3, of which
    [exposurescrawler.dbt.exposure] (absent from the sources) is the
    implementation; [depends_on] holds relation unique ids. *)
Record Exposure (User : Type) : Type := mkExposure {
  exposure_package : string;
  exposure_name : string;
  exposure_owner : User;
  depends_on : list string
}.
Arguments mkExposure {User} _ _ _ _.
Arguments exposure_package {User} _.
Arguments exposure_name {User} _.
Arguments exposure_owner {User} _.
Arguments depends_on {User} _.

Section dedup.
Context {User Model : Type} (unique_id : Model -> string).

(** Modelled from the spec: section 4.5 step 3, deduplicate the matched
    relations by unique id, the first occurrence winning; [seen] holds
    the ids already kept. *)
Fixpoint dedup_first (seen : list string) (found : list Model) : list Model :=
  match found with
  | [] => []
  | model :: rest =>
      if decide (unique_id model ∈ seen) then dedup_first seen rest
      else model :: dedup_first (unique_id model :: seen) rest
  end.

(** Modelled from the spec: section 4.5 step 3 with either tie-break the
    spec allows; the last occurrence wins by deduplicating from the end. *)
Definition deduplicate (tie : tie_break) (found : list Model) : list Model :=
  match tie with
  | FirstWins => dedup_first [] found
  | LastWins => reverse (dedup_first [] (reverse found))
  end.

(** Modelled from the spec: [DbtExposure.from_tableau_workbook] (absent
    from the sources), section 4.5 steps 3 and 4: the depends-on list is
    the unique ids of the deduplicated relations. *)
Definition from_tableau_workbook_spec (tie : tie_break)
    (package_name : string) (workbook : Workbook) (owner : User)
    (found : list Model) : Exposure User :=
  {| exposure_package := package_name;
     exposure_name := wb_name workbook;
     exposure_owner := owner;
     depends_on := unique_id <$> deduplicate tie found |}.

End dedup.

(** Modelled from the spec: how often a unique id "appears" in a list
    of unique ids. *)
Definition occurrences (id : string) (ids : list string) : nat :=
  length (filter (fun x => x = id) ids).

End DbtExposure.

(** ** The SQL model matcher

    [exposurescrawler.utils.query_parsing] is not among the sources: every
    definition of this module is modelled from section 4.2 of the
    specification. *)

Module QuerySpec.

(** Modelled from the spec: a relation of the registry (section 6). *)
Record Relation : Type := mkRelation {
  unique_id : string;
  database : string;
  schema : string;
  relation_name : string;
  display_name : string
}.

#[global] Instance relation_eq_dec : EqDecision Relation.
Proof. solve_decision. Defined.

(** Modelled from the spec: a text as its characters. *)
Definition chars (s : string) : list ascii := list_ascii_of_string s.

(** Modelled from the spec: the code of [c] lies in [lo .. hi]. *)
Definition between (lo hi : nat) (c : ascii) : bool :=
  let n := nat_of_ascii c in (lo <=? n) && (n <=? hi).

(** Modelled from the spec: "identifier"; letters, digits and the
    underscore make up identifiers. *)
Definition is_ident (c : ascii) : bool :=
  between 97 122 c || between 65 90 c || between 48 57 c || between 95 95 c.

(** Modelled from the spec: "quoting characters around identifiers";
    the double quote and the backquote. *)
Definition is_quote (c : ascii) : bool :=
  between 34 34 c || between 96 96 c.

(** Modelled from the spec: "case-insensitively"; upper-case letters
    are compared as their lower-case ones. *)
Definition lower_char (c : ascii) : ascii :=
  if between 65 90 c then ascii_of_nat (nat_of_ascii c + 32) else c.

(** Modelled from the spec: "case-insensitively, tolerant of quoting
    characters around identifiers" (section 4.2): the text is scanned in
    lower case with its quoting characters removed. *)
Definition normalize (sql_text : string) : list ascii :=
  lower_char <$> filter (fun c => is_quote c = false) (chars sql_text).

(** Modelled from the spec: a name of the registry, in lower case. *)
Definition lower_name (name : string) : list ascii := lower_char <$> chars name.

(** Modelled from the spec: the "qualified name" of a relation,
    [database.schema.relation_name]. *)
Definition qualified_name (r : Relation) : string :=
  database r +:+ "." +:+ schema r +:+ "." +:+ relation_name r.

(** Modelled from the spec: "not as a substring of a longer identifier";
    a neighbouring character that lets a token end is none, or one that
    is not part of an identifier. *)
Definition boundary (c : option ascii) : bool :=
  match c with None => true | Some c => negb (is_ident c) end.

(** Modelled from the spec: "occurs as a distinct token (not as a
    substring of a longer identifier)" (section 4.2), declaratively:
    the name lies in the text between two boundaries. *)
Definition standalone_in (name text : list ascii) : Prop :=
  ∃ pre post, text = pre ++ name ++ post
              ∧ boundary (last pre) = true ∧ boundary (head post) = true.

(** Modelled from the spec: a name "appears as a standalone token in SQL
    text" (section 8). *)
Definition occurs_standalone (name sql_text : string) : Prop :=
  standalone_in (lower_name name) (normalize sql_text).

(** Modelled from the spec: the name occurs in the text at all,
    standalone or not. *)
Definition occurs_within (name sql_text : string) : Prop :=
  ∃ pre post, normalize sql_text = pre ++ lower_name name ++ post.

(** Modelled from the spec: the name "appears only as a substring of a
    longer identifier" (section 8): it occurs, and wherever it does an
    identifier character precedes or follows it. *)
Definition only_inside_identifier (name sql_text : string) : Prop :=
  occurs_within name sql_text
  ∧ ∀ pre post, normalize sql_text = pre ++ lower_name name ++ post →
      boundary (last pre) = false ∨ boundary (head post) = false.

(** Modelled from the spec: the rest of [text] after [name], when
    [text] starts with it. *)
Fixpoint strip_prefix (name text : list ascii) : option (list ascii) :=
  match name, text with
  | [], _ => Some text
  | _ :: _, [] => None
  | c :: name', d :: text' =>
      if decide (c = d) then strip_prefix name' text' else None
  end.

(** Modelled from the spec: [name] is a token starting where [text]
    starts; [prev] is the character before. *)
Definition token_here (prev : option ascii) (name text : list ascii) : bool :=
  boundary prev &&
  match strip_prefix name text with
  | Some rest => boundary (head rest)
  | None => false
  end.

(** Modelled from the spec: the character before the text that follows
    [pre], [prev] being the one before [pre]. *)
Definition before (prev : option ascii) (pre : list ascii) : option ascii :=
  match last pre with Some c => Some c | None => prev end.

(** Modelled from the spec: "its qualified or unqualified name occurs as
    a distinct token", here. *)
Definition matches_here (prev : option ascii) (text : list ascii)
    (r : Relation) : bool :=
  token_here prev (lower_name (qualified_name r)) text
  || token_here prev (lower_name (relation_name r)) text.

(** Modelled from the spec: one position of the text against every
    relation of the registry; the mapping, keyed by unique id, absorbs
    repeats. *)
Definition record_matches (prev : option ascii) (text : list ascii)
    (registry : list Relation) (out : list (string * Relation))
    : list (string * Relation) :=
  foldl (fun out r =>
           if matches_here prev text r
           then PyDict.setdefault (unique_id r) r out else out)
        out registry.

(** Modelled from the spec: every position of the text, left to right,
    so that insertion order is first-seen order. *)
Fixpoint scan_text (prev : option ascii) (text : list ascii)
    (registry : list Relation) (out : list (string * Relation))
    : list (string * Relation) :=
  let out' := record_matches prev text registry out in
  match text with
  | [] => out'
  | c :: text' => scan_text (Some c) text' registry out'
  end.

(** Modelled from the spec: the matcher [find_models] of section 4.2
    ([exposurescrawler.utils.query_parsing], absent from the sources):
    every relation of the registry is tested for a token occurrence of
    its qualified or unqualified name, and the result maps unique ids to
    relations in first-seen order of the text. *)
Definition find_models (sql_text : string) (registry : list Relation)
    : list (string * Relation) :=
  scan_text None (normalize sql_text) registry [].

(** Modelled from the spec: the matcher as the collaborator of the
    aggregator; it raises nothing. *)
#[global] Instance query_parsing_spec : QueryParsing Relation (list Relation) :=
  {| search_model_in_query sql models := Ok (find_models sql models) |}.

End QuerySpec.

(** The matcher of an instance with failures to scan read as "no match". *)
Definition isolate_failures {Model Models : Type}
    (Q : QueryParsing Model Models) : QueryParsing Model Models :=
  {| search_model_in_query := isolated (@search_model_in_query _ _ Q) |}.

(** ** A run to evaluate *)

Module Scenario.
Import QuerySpec.

(** A reference as a pair of an id and a display name. *)
Record WorkbookReference : Type := mkReference {
  ref_id : string;
  ref_name : string
}.

#[global] Instance workbook_reference_eq_dec : EqDecision WorkbookReference.
Proof. solve_decision. Defined.

#[global] Instance workbook_reference : Reference WorkbookReference :=
  {| reference_id := ref_id |}.

Definition orders : Relation :=
  mkRelation "m1" "analytics" "public" "orders" "orders".
Definition stg_orders : Relation :=
  mkRelation "m2" "analytics" "staging" "stg_orders" "stg_orders".
Definition registry : list Relation := [orders; stg_orders].

Definition dash_A : WorkbookReference := mkReference "A" "Sales overview".
Definition dash_B : WorkbookReference := mkReference "B" "Sandbox".
Definition dash_C : WorkbookReference := mkReference "C" "Finance".
Definition dash_D : WorkbookReference := mkReference "D" "Deleted".
Definition dash_E : WorkbookReference := mkReference "E" "Empty".

(** Dashboard D has been deleted since its SQL was listed. *)
#[global] Instance rest_client : TableauRestClient string := {|
  retrieve_workbook id :=
    if decide (id = "A") then Ok (mkWorkbook "Sales overview" (Some "Sales") "u1")
    else if decide (id = "B") then Ok (mkWorkbook "Sandbox" (Some "") "u2")
    else if decide (id = "C") then Ok (mkWorkbook "Finance" (Some "Finance") "u1")
    else Raise "404 workbook";
  retrieve_user id :=
    if decide (id = "u1") then Ok "alice"
    else if decide (id = "u2") then Ok "bob"
    else Raise "404 user"
|}.

Definition custom_sqls : list (WorkbookReference * list string) :=
  [ (dash_A, ["select 1"; "select * from orders"]);
    (dash_B, ["SELECT * FROM Orders"]);
    (dash_E, ["select * from customers"; "select * from my_orders"]);
    (dash_D, ["select * from stg_orders"]) ].

Definition native_sqls : list (WorkbookReference * list string) :=
  [ (dash_C, ["SELECT id FROM `ANALYTICS`.`STAGING`.`STG_ORDERS` s"]);
    (dash_A, ["select * from analytics.public.orders join stg_orders using (id)"]) ].

#[global] Instance graphql_client : GraphqlClient WorkbookReference := {|
  retrieve_custom_sql := Ok custom_sqls;
  retrieve_native_sql := Ok native_sqls
|}.

#[global] Instance exposure_factory :
    ExposureFactory string Relation (DbtExposure.Exposure string) := {|
  from_tableau_workbook :=
    DbtExposure.from_tableau_workbook_spec unique_id DbtExposure.FirstWins
|}.

(** What the aggregator finds in the two sources. *)
Definition custom_models : list (WorkbookReference * list Relation) :=
  [ (dash_A, [orders]); (dash_B, [orders]); (dash_D, [stg_orders]) ].

Definition native_models : list (WorkbookReference * list Relation) :=
  [ (dash_C, [stg_orders]); (dash_A, [orders; stg_orders]) ].

(** A matcher that cannot scan one snippet. *)
Definition flaky : QueryParsing Relation (list Relation) := {|
  search_model_in_query sql models :=
    if decide (sql = "select * from unreadable")
    then Raise "UnicodeDecodeError"
    else Ok (find_models sql models)
|}.

Definition flaky_sqls : list (WorkbookReference * list string) :=
  [ (dash_A, ["select * from unreadable"; "select * from orders"]) ].

(** Signing out and persisting go well. *)
#[global] Instance closing : Closing := {|
  sign_out := Ok tt;
  persist _ _ := Ok tt
|}.

End Scenario.

(** ** More observations of a trace *)

(** The workbook ids asked of [retrieve_workbook], in order. *)
Definition workbook_requests {Model Exposure}
    (tr : list (event Model Exposure)) : list string :=
  omap (fun ev => match ev with
                  | EvRetrieveWorkbook workbook_id => Some workbook_id
                  | _ => None
                  end) tr.

Definition is_sign_out {Model Exposure} (ev : event Model Exposure) : bool :=
  match ev with EvSignOut => true | _ => false end.

(** The events the exposure-building loop can record. *)
Definition loop_event {Model Exposure} (ev : event Model Exposure) : bool :=
  match ev with
  | EvRetrieveWorkbook _ | EvRetrieveUser _ | EvAddExposure _ _ => true
  | _ => false
  end.

(** ** The beginning of [tableau_crawler] and [tableau_crawler_command] *)

(** [exposurescrawler.dbt.manifest.DbtManifest]: its two constructors and
    [retrieve_models_and_sources]; each may raise. *)
Class DbtManifestLoader (Manifest Models : Type) : Type := {
  from_json_str : string -> result Manifest;
  from_file : string -> result Manifest;
  retrieve_models_and_sources : Manifest -> result Models
}.

(** The process around the crawler: [os.path.expandvars],
    [os.path.expanduser], [os.environ], whether an exception is an
    instance of [ValueError], and the constructor of [TableauRestClient]. *)
Class Process : Type := {
  expandvars : string -> string;
  expanduser : string -> string;
  environ : string -> option string;
  is_value_error : string -> bool;
  connect : string -> string -> string -> string -> result unit
}.

(** What the command does before and around the crawl. *)
Inductive command_event (Model Exposure : Type) : Type :=
| EvFromJsonStr (text : string)
| EvFromFile (path : string)
| EvConnect (url username password site : string)
| EvCrawl (ev : event Model Exposure).
Arguments EvFromJsonStr {Model Exposure} text.
Arguments EvFromFile {Model Exposure} path.
Arguments EvConnect {Model Exposure} url username password site.
Arguments EvCrawl {Model Exposure} ev.

Definition is_crawl {Model Exposure} (ev : command_event Model Exposure) : bool :=
  match ev with EvCrawl _ => true | _ => false end.

(** The trace of the crawl inside the trace of the command. *)
Definition embed {Model Exposure A}
    (m : Crawl (event Model Exposure) A)
    : Crawl (command_event Model Exposure) A :=
  fun tr => let '(crawled, outcome) := m [] in (tr ++ (EvCrawl <$> crawled), outcome).

Section Command.
Context {R User Model Models Exposure Manifest : Type}.
Context `{Reference R} `{QueryParsing Model Models} `{GraphqlClient R}.
Context `{TableauRestClient User} `{ExposureFactory User Model Exposure}.
Context `{DbtManifestLoader Manifest Models} `{Process}.
Context `{Closing}.

Local Abbreviation Cev := (command_event Model Exposure).

(** [os.environ[name]] *)
Definition environ_get (name : string) : result string :=
  match environ name with
  | Some value => Ok value
  | None => Raise "KeyError"
  end.

(** The [try] block of [tableau_crawler]: the manifest, the name of the
    method that will persist it, and the path it will be given. *)
Definition load_manifest (manifest_path_or_str yml_path : string)
    : Crawl Cev (Manifest * string * string) :=
  fun tr =>
    let tr := tr ++ [EvFromJsonStr manifest_path_or_str] in
    match from_json_str manifest_path_or_str with
    | Ok manifest => (tr, Ok (manifest, "save_to_yml", yml_path))
    | Raise e =>
        if is_value_error e then
          let manifest_path := expanduser (expandvars manifest_path_or_str) in
          call (EvFromFile manifest_path)
               (manifest ← from_file manifest_path;
                mret (manifest, "save", manifest_path)) tr
        else (tr, Raise e)
    end.

(** [tableau_crawler_command], which hands its arguments to
    [tableau_crawler]: from the loading of the manifest to its
    persisting.  [verbose] only sets the logging level. *)
Definition tableau_crawler_command (manifest_path dbt_package_name : string)
    (tableau_projects_to_ignore : list string) (verbose : bool)
    (yml_path : string) : Crawl Cev unit :=
  '(manifest, method, manifest_path_or_str) ← load_manifest manifest_path yml_path;
  models ← lift (retrieve_models_and_sources manifest);
  url ← lift (environ_get "TABLEAU_URL");
  username ← lift (environ_get "TABLEAU_USERNAME");
  password ← lift (environ_get "TABLEAU_PASSWORD");
  site ← lift (environ_get "TABLEAU_SITE");
  call (EvConnect url username password site) (connect url username password site);;
  embed (tableau_crawler models dbt_package_name tableau_projects_to_ignore
           method manifest_path_or_str).

End Command.

(** ** A run that succeeds *)

Module Healthy.
Import QuerySpec Scenario.

Definition custom_sqls : list (WorkbookReference * list string) :=
  [ (dash_A, ["select 1"; "select * from orders"]);
    (dash_B, ["SELECT * FROM Orders"]);
    (dash_E, ["select * from customers"]) ].

Definition native_sqls : list (WorkbookReference * list string) :=
  [ (dash_C, ["SELECT id FROM `ANALYTICS`.`STAGING`.`STG_ORDERS` s"]);
    (dash_A, ["select * from analytics.public.orders join stg_orders using (id)"]) ].

Definition graphql_client : GraphqlClient WorkbookReference := {|
  retrieve_custom_sql := Ok custom_sqls;
  retrieve_native_sql := Ok native_sqls
|}.

Definition custom_models : list (WorkbookReference * list Relation) :=
  [ (dash_A, [orders]); (dash_B, [orders]) ].

Definition native_models : list (WorkbookReference * list Relation) :=
  [ (dash_C, [stg_orders]); (dash_A, [orders; stg_orders]) ].

(** A manifest is its list of relations; a text that starts with a brace
    is taken for JSON, and only [target/manifest.json] exists. *)
Definition manifest_loader : DbtManifestLoader (list Relation) (list Relation) := {|
  from_json_str text :=
    match text with
    | String "{" _ => Ok registry
    | _ => Raise "JSONDecodeError"
    end;
  from_file path :=
    if decide (path = "target/manifest.json") then Ok registry
    else Raise "FileNotFoundError";
  retrieve_models_and_sources manifest := Ok manifest
|}.

Definition process : Process := {|
  expandvars path := path;
  expanduser path := path;
  environ name :=
    if decide (name = "TABLEAU_URL") then Some "https://tableau.example"
    else if decide (name = "TABLEAU_USERNAME") then Some "crawler"
    else if decide (name = "TABLEAU_PASSWORD") then Some "secret"
    else if decide (name = "TABLEAU_SITE") then Some "main"
    else None;
  is_value_error e := bool_decide (e = "JSONDecodeError");
  connect _ _ _ _ := Ok tt
|}.

(** The same process without [TABLEAU_SITE]. *)
Definition process_without_site : Process := {|
  expandvars path := path;
  expanduser path := path;
  environ name :=
    if decide (name = "TABLEAU_URL") then Some "https://tableau.example"
    else if decide (name = "TABLEAU_USERNAME") then Some "crawler"
    else if decide (name = "TABLEAU_PASSWORD") then Some "secret"
    else None;
  is_value_error e := bool_decide (e = "JSONDecodeError");
  connect _ _ _ _ := Ok tt
|}.

End Healthy.

(** ** A dashboard listed under two names *)

Module Renamed.
Import QuerySpec Scenario.

(** Dashboard A as the native-SQL source lists it, renamed since the
    custom-SQL source was read: the same id, another name. *)
Definition dash_A_renamed : WorkbookReference :=
  mkReference "A" "Sales overview (renamed)".

Definition custom_models : list (WorkbookReference * list Relation) :=
  [ (dash_A, [orders]) ].

Definition native_models : list (WorkbookReference * list Relation) :=
  [ (dash_A_renamed, [orders]) ].

End Renamed.

(** ** A run whose custom-SQL source cannot be read *)

Module Outage.
Import Scenario.

Definition graphql_client : GraphqlClient WorkbookReference := {|
  retrieve_custom_sql := Raise "ConnectionError";
  retrieve_native_sql := Ok native_sqls
|}.

End Outage.

(** * Properties *)

(** ** Dictionaries *)

Section dict_facts.
Context {K V : Type} `{EqDecision K}.
Implicit Types (d : list (K * V)) (k : K) (v : V).

Lemma keys_nil : PyDict.keys (@nil (K * V)) = [].
Proof. reflexivity. Qed.

Lemma keys_cons k v d : PyDict.keys ((k, v) :: d) = k :: PyDict.keys d.
Proof. reflexivity. Qed.

Lemma get_None k d : PyDict.get k d = None ↔ k ∉ PyDict.keys d.
Proof.
  unfold PyDict.keys. induction d as [|[k' v'] d IH]; simpl.
  - split; [intros _; apply not_elem_of_nil | done].
  - rewrite not_elem_of_cons. destruct (decide (k = k')) as [Heq|Hne].
    + split; [done|]. intros [Hk _]. by destruct Hk.
    + rewrite IH. split; [by split|]. by intros [_ Hk].
Qed.

Lemma get_Some_elem k v d : PyDict.get k d = Some v → (k, v) ∈ d.
Proof.
  induction d as [|[k' v'] d IH]; simpl; [done|].
  destruct (decide (k = k')) as [->|]; intros Hg.
  - injection Hg as ->. apply list_elem_of_here.
  - apply list_elem_of_further; auto.
Qed.

Lemma get_elem_wf k v d : PyDict.wf d → (k, v) ∈ d → PyDict.get k d = Some v.
Proof.
  unfold PyDict.wf, PyDict.keys.
  induction d as [|[k' v'] d IH]; simpl; intros Hnd Hin.
  - by apply elem_of_nil in Hin.
  - apply NoDup_cons in Hnd as [Hk' Hnd].
    apply elem_of_cons in Hin as [Heq|Hin].
    + injection Heq as -> ->. by rewrite decide_True.
    + destruct (decide (k = k')) as [->|]; [|auto].
      exfalso. apply Hk'. apply list_elem_of_fmap. by exists (k', v).
Qed.

Lemma get_app k d1 d2 :
  PyDict.get k (d1 ++ d2) =
  match PyDict.get k d1 with Some v => Some v | None => PyDict.get k d2 end.
Proof.
  induction d1 as [|[k' v'] d1 IH]; simpl; [done|].
  by destruct (decide (k = k')).
Qed.

Lemma keys_alter (f : V → V) k d : PyDict.keys (PyDict.alter f k d) = PyDict.keys d.
Proof.
  unfold PyDict.keys. induction d as [|[k' v'] d IH]; simpl; [done|].
  destruct (decide (k = k')); simpl; [done|]. f_equal. apply IH.
Qed.

Lemma get_alter (f : V → V) k k' d :
  PyDict.get k' (PyDict.alter f k d) =
  if decide (k' = k) then f <$> PyDict.get k d else PyDict.get k' d.
Proof.
  induction d as [|[k0 v0] d IH]; simpl.
  - by destruct (decide (k' = k)).
  - destruct (decide (k = k0)) as [->|Hne]; simpl.
    + by destruct (decide (k' = k0)).
    + destruct (decide (k' = k0)) as [->|]; [|apply IH].
      by rewrite decide_False by (intros ->; by apply Hne).
Qed.

Lemma values_alter_Forall (P : V → Prop) (f : V → V) k d :
  (∀ v, P v → P (f v)) →
  Forall P (PyDict.values d) → Forall P (PyDict.values (PyDict.alter f k d)).
Proof.
  unfold PyDict.values. intros Hf.
  induction d as [|[k0 v0] d IH]; simpl; [done|].
  intros Hall. apply Forall_cons in Hall as [H0 Hall].
  destruct (decide (k = k0)); simpl; apply Forall_cons; auto.
Qed.

Lemma keys_setdefault k v d :
  PyDict.keys (PyDict.setdefault k v d) =
  if decide (k ∈ PyDict.keys d) then PyDict.keys d else PyDict.keys d ++ [k].
Proof.
  unfold PyDict.setdefault.
  destruct (PyDict.get k d) eqn:Hg.
  - rewrite decide_True; [done|].
    destruct (decide (k ∈ PyDict.keys d)) as [|Hn]; [done|].
    apply get_None in Hn. congruence.
  - apply get_None in Hg. rewrite decide_False by done.
    unfold PyDict.keys. by rewrite fmap_app.
Qed.

Lemma setitem_fresh k v d : k ∉ PyDict.keys d → PyDict.setitem k v d = d ++ [(k, v)].
Proof. intros Hk. apply get_None in Hk. unfold PyDict.setitem. by rewrite Hk. Qed.

End dict_facts.

(** ** Exclusion *)

(** C3: [_should_ignore_workbook] answers true for a workbook whose
    project name is empty (or absent), true for one whose project name is
    in the ignore collection, and false for every workbook whose project
    name is non-empty and not in the collection. *)
Theorem should_ignore_workbook_cases (workbook : Workbook)
    (projects_to_ignore : list string) :
  (project_name workbook = None ∨ project_name workbook = Some ""
     → _should_ignore_workbook workbook projects_to_ignore = true)
  ∧ (∀ name, project_name workbook = Some name → name ∈ projects_to_ignore
     → _should_ignore_workbook workbook projects_to_ignore = true)
  ∧ (∀ name, project_name workbook = Some name → name ≠ ""
     → name ∉ projects_to_ignore
     → _should_ignore_workbook workbook projects_to_ignore = false).
Proof.
  unfold _should_ignore_workbook. repeat split.
  - intros [-> | ->]; reflexivity.
  - intros name -> Hin. destruct name; simpl; [done|].
    by apply bool_decide_eq_true.
  - intros name -> Hne Hnotin. destruct name; simpl; [done|].
    by apply bool_decide_eq_false.
Qed.

(** ** The aggregator *)

Section aggregator_facts.
Context {R Model Models : Type} `{Reference R} `{QueryParsing Model Models}.
Implicit Types (models : Models) (sqls : list string) (acc : list Model).
Implicit Types (ws : list (R * list string)) (out : list (R * list Model)).

Lemma result_bind_Ok {A B} (f : A → result B) (a : A) : (Ok a ≫= f) = f a.
Proof. reflexivity. Qed.

Lemma result_bind_Raise {A B} (f : A → result B) (e : string) :
  (Raise e ≫= f) = Raise e.
Proof. reflexivity. Qed.

Lemma truthy_false_nil {A} (l : list A) : truthy l = false → l = [].
Proof. by destruct l. Qed.

Lemma scan_sqls_step models sql rest acc q :
  search_model_in_query sql models = Ok q →
  scan_sqls models (sql :: rest) acc = scan_sqls models rest (acc ++ PyDict.values q).
Proof.
  intros Hq. simpl. rewrite Hq, result_bind_Ok.
  destruct (truthy q) eqn:Ht; [done|].
  apply truthy_false_nil in Ht as ->. simpl. by rewrite app_nil_r.
Qed.

Lemma scan_sqls_ok models sqls acc :
  (∀ sql, sql ∈ sqls → is_ok (search_model_in_query sql models) = true) →
  scan_sqls models sqls acc = Ok (acc ++ concat_matches models sqls).
Proof.
  unfold concat_matches. revert acc.
  induction sqls as [|sql rest IH]; intros acc Hok.
  - simpl. by rewrite app_nil_r.
  - assert (Hsql : is_ok (search_model_in_query sql models) = true)
      by (apply Hok, list_elem_of_here).
    destruct (search_model_in_query sql models) as [q|] eqn:Hq; [|done].
    rewrite (scan_sqls_step _ _ _ _ q Hq), IH.
    + simpl. unfold snippet_values at 2. by rewrite Hq, app_assoc.
    + intros s Hs. apply Hok. by apply list_elem_of_further.
Qed.

(** Either every snippet scans, or the loop stops at an exception the
    matcher raised on one of them. *)
Lemma scan_sqls_cases models sqls acc :
  (∀ sql, sql ∈ sqls → is_ok (search_model_in_query sql models) = true)
  ∨ (∃ e sql, scan_sqls models sqls acc = Raise e ∧ sql ∈ sqls
              ∧ search_model_in_query sql models = Raise e).
Proof.
  revert acc. induction sqls as [|sql rest IH]; intros acc.
  - left. intros sql Hin. by apply elem_of_nil in Hin.
  - destruct (search_model_in_query sql models) as [q|e] eqn:Hq.
    + rewrite (scan_sqls_step _ _ _ _ q Hq).
      destruct (IH (acc ++ PyDict.values q)) as [Hok|(e & s & Hr & Hin & Hs)].
      * left. intros s Hin. apply elem_of_cons in Hin as [->|Hin]; [|by apply Hok].
        by rewrite Hq.
      * right. exists e, s. split_and!; [done| |done]. by apply list_elem_of_further.
    + right. exists e, sql. split_and!; [|apply list_elem_of_here|done].
      simpl. by rewrite Hq.
Qed.

Lemma scans_all_cons ref sqls models ws :
  scans_all models ((ref, sqls) :: ws) ↔
  (∀ sql, sql ∈ sqls → is_ok (search_model_in_query sql models) = true)
  ∧ scans_all models ws.
Proof.
  unfold scans_all. split.
  - intros Hall. split.
    + intros sql Hin. apply (Hall ref sqls); [apply list_elem_of_here|done].
    + intros r s sql Hin Hs. apply (Hall r s); [by apply list_elem_of_further|done].
  - intros [Hhd Htl] r s sql Hin Hsql.
    apply elem_of_cons in Hin as [Heq|Hin].
    + injection Heq as -> ->. by apply Hhd.
    + by apply (Htl r s).
Qed.

Lemma parse_loop_step models ref sqls ws out :
  (∀ sql, sql ∈ sqls → is_ok (search_model_in_query sql models) = true) →
  parse_loop models ((ref, sqls) :: ws) out =
  parse_loop models ws
    (if truthy (concat_matches models sqls)
     then PyDict.setitem ref (concat_matches models sqls) out else out).
Proof.
  intros Hok. simpl. rewrite (scan_sqls_ok _ _ _ Hok), result_bind_Ok.
  rewrite app_nil_l. by destruct (truthy (concat_matches models sqls)).
Qed.

Lemma keys_aggregate_spec models ws :
  PyDict.keys (aggregate_spec models ws) ⊆ PyDict.keys ws.
Proof.
  unfold aggregate_spec, PyDict.keys. intros k Hk.
  apply list_elem_of_fmap in Hk as ([k' v] & -> & Hin).
  apply list_elem_of_omap in Hin as ([r sqls] & Hin & Hsome).
  simpl in Hsome. destruct (concat_matches models sqls); [done|].
  injection Hsome as <- _. apply list_elem_of_fmap. by exists (r, sqls).
Qed.

Lemma parse_loop_spec models ws out :
  PyDict.wf ws → scans_all models ws →
  (∀ k, k ∈ PyDict.keys ws → k ∉ PyDict.keys out) →
  parse_loop models ws out = Ok (out ++ aggregate_spec models ws).
Proof.
  unfold PyDict.wf. revert out.
  induction ws as [|[ref sqls] ws IH]; intros out Hwf Hscan Hfresh.
  - simpl. by rewrite app_nil_r.
  - apply scans_all_cons in Hscan as [Hhd Htl].
    unfold PyDict.keys in Hwf. simpl in Hwf. apply NoDup_cons in Hwf as [Href Hwf].
    rewrite (parse_loop_step _ _ _ _ _ Hhd).
    assert (Hout : ref ∉ PyDict.keys out)
      by (apply Hfresh; unfold PyDict.keys; simpl; apply list_elem_of_here).
    unfold aggregate_spec. simpl.
    destruct (concat_matches models sqls) as [|m ms] eqn:Hcm; simpl.
    + apply IH; [done|done|].
      intros k Hk. apply Hfresh. unfold PyDict.keys. simpl.
      by apply list_elem_of_further.
    + rewrite (setitem_fresh _ _ _ Hout), IH; [|done|done|].
      * by rewrite <- app_assoc.
      * intros k Hk. unfold PyDict.keys. rewrite fmap_app. simpl.
        rewrite not_elem_of_app. split.
        -- apply Hfresh. unfold PyDict.keys. simpl. by apply list_elem_of_further.
        -- intros Hin. apply list_elem_of_singleton in Hin as ->. by apply Href.
Qed.

Lemma get_aggregate_spec models ws ref sqls :
  PyDict.wf ws → (ref, sqls) ∈ ws →
  PyDict.get ref (aggregate_spec models ws) =
  match concat_matches models sqls with
  | [] => None
  | all_found => Some all_found
  end.
Proof.
  unfold PyDict.wf, PyDict.keys.
  induction ws as [|[r s] ws IH]; intros Hwf Hin.
  - by apply elem_of_nil in Hin.
  - simpl in Hwf. apply NoDup_cons in Hwf as [Hr Hwf].
    apply elem_of_cons in Hin as [Heq|Hin].
    + injection Heq as <- <-. unfold aggregate_spec. simpl.
      destruct (concat_matches models sqls) eqn:Hcm.
      * apply get_None. intros Hk. apply keys_aggregate_spec in Hk. by apply Hr.
      * simpl. by rewrite decide_True.
    + assert (ref ≠ r).
      { intros ->. apply Hr. apply list_elem_of_fmap. by exists (r, sqls). }
      unfold aggregate_spec. simpl.
      destruct (concat_matches models s); simpl.
      * by apply IH.
      * rewrite decide_False by done. by apply IH.
Qed.

(** Whatever it was given, the aggregator stores non-empty lists only. *)
Lemma parse_loop_nonempty models ws out out' :
  parse_loop models ws out = Ok out' →
  Forall (fun l => l ≠ []) (PyDict.values out) →
  Forall (fun l => l ≠ []) (PyDict.values out').
Proof.
  revert out. induction ws as [|[ref sqls] ws IH]; intros out Hp Hall.
  - simpl in Hp. by injection Hp as <-.
  - simpl in Hp. destruct (scan_sqls models sqls []) as [found|] eqn:Hs; [|done].
    rewrite result_bind_Ok in Hp.
    destruct found as [|m ms]; simpl in Hp; [by apply (IH out)|].
    apply (IH _ Hp). unfold PyDict.setitem.
    destruct (PyDict.get ref out).
    + by apply values_alter_Forall.
    + unfold PyDict.values in *. rewrite fmap_app. apply Forall_app. split; [done|].
      by apply Forall_singleton.
Qed.

End aggregator_facts.

(** ** The merge *)

Section merge_facts.
Context {R Model : Type} `{Reference R}.
Implicit Types (acc a b : list (R * list Model)) (k : R) (found : list Model).

Lemma alter_app_fresh {V} (f : V → V) k (d : list (R * V)) v :
  k ∉ PyDict.keys d → PyDict.alter f k (d ++ [(k, v)]) = d ++ [(k, f v)].
Proof.
  unfold PyDict.keys. induction d as [|[k0 v0] d IH]; simpl; intros Hk.
  - by rewrite decide_True.
  - apply not_elem_of_cons in Hk as [Hne Hk].
    rewrite decide_False by done. f_equal. by apply IH.
Qed.

(** One step of the merge, by whether the key is already there. *)
Lemma merge_step_unfold acc k found :
  merge_step acc (k, found) =
  match PyDict.get k acc with
  | Some _ => PyDict.alter (fun l => l ++ found) k acc
  | None => acc ++ [(k, found)]
  end.
Proof.
  unfold merge_step, PyDict.setdefault.
  destruct (PyDict.get k acc) eqn:Hg; [done|].
  apply get_None in Hg. by rewrite alter_app_fresh.
Qed.

Lemma keys_merge_step acc k found :
  PyDict.keys (merge_step acc (k, found)) =
  if decide (k ∈ PyDict.keys acc) then PyDict.keys acc else PyDict.keys acc ++ [k].
Proof.
  unfold merge_step. by rewrite keys_alter, keys_setdefault.
Qed.

Lemma get_merge_step acc k found k' :
  PyDict.get k' (merge_step acc (k, found)) =
  if decide (k' = k) then Some (default [] (PyDict.get k acc) ++ found)
  else PyDict.get k' acc.
Proof.
  rewrite merge_step_unfold.
  destruct (PyDict.get k acc) as [l|] eqn:Hg.
  - rewrite get_alter, Hg. by destruct (decide (k' = k)).
  - rewrite get_app. simpl.
    destruct (decide (k' = k)) as [->|Hne]; [by rewrite Hg|].
    by destruct (PyDict.get k' acc).
Qed.

Lemma wf_merge_step acc item : PyDict.wf acc → PyDict.wf (merge_step acc item).
Proof.
  destruct item as [k found]. unfold PyDict.wf. rewrite keys_merge_step.
  destruct (decide (k ∈ PyDict.keys acc)) as [|Hk]; [done|].
  intros Hnd. apply NoDup_app. split_and!; [done| |apply NoDup_singleton].
  intros x Hx Hx'. apply list_elem_of_singleton in Hx' as ->. by apply Hk.
Qed.

Lemma wf_foldl_merge acc (l : list (R * list Model)) :
  PyDict.wf acc → PyDict.wf (foldl merge_step acc l).
Proof.
  revert acc. induction l as [|item l IH]; intros acc Hwf; [done|].
  simpl. by apply IH, wf_merge_step.
Qed.

Lemma keys_foldl_merge acc (l : list (R * list Model)) k :
  k ∈ PyDict.keys (foldl merge_step acc l) ↔ k ∈ PyDict.keys acc ∨ k ∈ PyDict.keys l.
Proof.
  revert acc. induction l as [|[k0 found] l IH]; intros acc; cbn [foldl].
  - rewrite keys_nil, elem_of_nil. tauto.
  - rewrite IH, keys_merge_step, keys_cons, elem_of_cons.
    destruct (decide (k0 ∈ PyDict.keys acc)) as [Hin|Hnin].
    + split; [tauto|]. intros [?|[->|?]]; tauto.
    + rewrite elem_of_app, list_elem_of_singleton. tauto.
Qed.

Lemma get_foldl_merge acc (l : list (R * list Model)) k :
  PyDict.wf l →
  PyDict.get k (foldl merge_step acc l) =
  match PyDict.get k l with
  | Some found => Some (default [] (PyDict.get k acc) ++ found)
  | None => PyDict.get k acc
  end.
Proof.
  unfold PyDict.wf, PyDict.keys. revert acc.
  induction l as [|[k0 found] l IH]; intros acc Hwf; [done|].
  simpl in Hwf. apply NoDup_cons in Hwf as [Hk0 Hwf].
  cbn [foldl PyDict.get]. rewrite (IH _ Hwf), get_merge_step.
  destruct (decide (k = k0)) as [->|Hne]; [|done].
  apply get_None in Hk0. by rewrite Hk0.
Qed.

Lemma nonempty_merge_step acc k found :
  found ≠ [] →
  Forall (fun l => l ≠ []) (PyDict.values acc) →
  Forall (fun l => l ≠ []) (PyDict.values (merge_step acc (k, found))).
Proof.
  intros Hf Hall. rewrite merge_step_unfold.
  destruct (PyDict.get k acc).
  - apply values_alter_Forall; [|done].
    intros l0 Hl0 Happ. apply app_eq_nil in Happ as [? _]. by apply Hl0.
  - unfold PyDict.values in *. rewrite fmap_app. apply Forall_app.
    split; [done|]. by apply Forall_singleton.
Qed.

Lemma nonempty_foldl_merge acc (l : list (R * list Model)) :
  Forall (fun l => l ≠ []) (PyDict.values l) →
  Forall (fun l => l ≠ []) (PyDict.values acc) →
  Forall (fun l => l ≠ []) (PyDict.values (foldl merge_step acc l)).
Proof.
  unfold PyDict.values at 1. revert acc.
  induction l as [|[k found] l IH]; intros acc Hl Hacc; [done|].
  simpl in Hl. apply Forall_cons in Hl as [Hf Hl].
  cbn [foldl]. apply IH; [done|]. by apply nonempty_merge_step.
Qed.

(** C2: the merged mapping of two per-source mappings has the union of
    their key sets as its key set; a dashboard present in both has the
    custom-SQL list followed by the native-SQL list, every record of both
    kept (nothing is deduplicated); a dashboard present in one has that
    list. *)
Theorem merge_models_union (a b : list (R * list Model)) :
  PyDict.wf a → PyDict.wf b →
  (∀ k, k ∈ PyDict.keys (merge_models a b) ↔ k ∈ PyDict.keys a ∨ k ∈ PyDict.keys b)
  ∧ (∀ k la lb, PyDict.get k a = Some la → PyDict.get k b = Some lb →
       PyDict.get k (merge_models a b) = Some (la ++ lb))
  ∧ (∀ k la, PyDict.get k a = Some la → PyDict.get k b = None →
       PyDict.get k (merge_models a b) = Some la)
  ∧ (∀ k lb, PyDict.get k a = None → PyDict.get k b = Some lb →
       PyDict.get k (merge_models a b) = Some lb)
  ∧ PyDict.wf (merge_models a b).
Proof.
  intros Ha Hb. unfold merge_models. rewrite foldl_app.
  assert (Hget : ∀ k, PyDict.get k (foldl merge_step (foldl merge_step [] a) b) =
    match PyDict.get k b with
    | Some lb => Some (default [] (PyDict.get k a) ++ lb)
    | None => PyDict.get k a
    end).
  { intros k. rewrite (get_foldl_merge _ b k Hb), (get_foldl_merge [] a k Ha).
    simpl. by destruct (PyDict.get k a), (PyDict.get k b). }
  split_and!.
  - intros k. rewrite !keys_foldl_merge, keys_nil, elem_of_nil. tauto.
  - intros k la lb Hka Hkb. by rewrite Hget, Hka, Hkb.
  - intros k la Hka Hkb. by rewrite Hget, Hka, Hkb.
  - intros k lb Hka Hkb. by rewrite Hget, Hka, Hkb.
  - by apply wf_foldl_merge, wf_foldl_merge, NoDup_nil.
Qed.

End merge_facts.

(** ** What the aggregator returns *)

Section aggregator_claims.
Context {R Model Models : Type} `{Reference R} `{QueryParsing Model Models}.
Implicit Types (models : Models) (ws : list (R * list string)).

(** C1: when the matcher answers on every snippet, the aggregator
    returns, for each dashboard, the concatenation of the values of the
    per-snippet mappings in snippet order; a dashboard is a key of the
    output if and only if that list is non-empty, and a dashboard none of
    whose snippets matches a relation is not a key. *)
Theorem parse_tables_from_sql_aggregates ws models :
  PyDict.wf ws → scans_all models ws →
  _parse_tables_from_sql ws models = Ok (aggregate_spec models ws)
  ∧ ∀ ref sqls, (ref, sqls) ∈ ws →
      (ref ∈ PyDict.keys (aggregate_spec models ws)
         ↔ concat_matches models sqls ≠ [])
      ∧ (concat_matches models sqls ≠ [] →
         PyDict.get ref (aggregate_spec models ws)
         = Some (concat_matches models sqls))
      ∧ ((∀ sql, sql ∈ sqls → snippet_values models sql = []) →
         ref ∉ PyDict.keys (aggregate_spec models ws)).
Proof.
  intros Hwf Hscan. split.
  - unfold _parse_tables_from_sql. rewrite parse_loop_spec; [done..|].
    intros k _. apply not_elem_of_nil.
  - intros ref sqls Hin.
    pose proof (get_aggregate_spec models ws ref sqls Hwf Hin) as Hget.
    assert (Hnone : concat_matches models sqls = [] →
                    ref ∉ PyDict.keys (aggregate_spec models ws)).
    { intros Hcm. apply get_None. by rewrite Hget, Hcm. }
    split_and!.
    + split.
      * intros Hk Hcm. by apply Hnone.
      * intros Hcm. apply dec_stable. intros Hk. apply get_None in Hk.
        rewrite Hget in Hk. by destruct (concat_matches models sqls).
    + intros Hcm. rewrite Hget. by destruct (concat_matches models sqls).
    + intros Hno. apply Hnone. unfold concat_matches.
      clear -Hno. induction sqls as [|sql rest IH]; [done|].
      simpl. rewrite Hno by apply list_elem_of_here. simpl.
      apply IH. intros s Hs. apply Hno. by apply list_elem_of_further.
Qed.

Lemma parse_loop_cases models ws (out : list (R * list Model)) :
  scans_all models ws
  ∨ (∃ e ref sqls sql, parse_loop models ws out = Raise e ∧ (ref, sqls) ∈ ws
       ∧ sql ∈ sqls ∧ search_model_in_query sql models = Raise e).
Proof.
  revert out. induction ws as [|[ref sqls] ws IH]; intros out.
  - left. intros r s sql Hin. by apply elem_of_nil in Hin.
  - destruct (scan_sqls_cases models sqls []) as [Hok|(e & sql & Hr & Hin & Hs)].
    + rewrite (parse_loop_step _ _ _ _ _ Hok).
      destruct (IH (if truthy (concat_matches models sqls)
                    then PyDict.setitem ref (concat_matches models sqls) out
                    else out))
        as [Hall|(e & r & s & q & Hr & Hin & Hq & Hs)].
      * left. by apply scans_all_cons.
      * right. exists e, r, s, q. split_and!; [done| |done|done].
        by apply list_elem_of_further.
    + right. exists e, ref, sqls, sql. split_and!; [|apply list_elem_of_here|done|done].
      simpl. by rewrite Hr.
Qed.

(** C7, as the code has it: an exception of the matcher on a snippet is
    not caught; it leaves the aggregator, which then returns no mapping
    for any dashboard.  A snippet for which the matcher returns an empty
    mapping adds nothing, and the snippets after it are still scanned. *)
Theorem snippet_failure_propagates models :
  (∀ ws ref sqls sql,
     (ref, sqls) ∈ ws → sql ∈ sqls →
     is_ok (search_model_in_query sql models) = false →
     ∃ e, _parse_tables_from_sql ws models = Raise e
          ∧ ∃ ref' sqls' sql', (ref', sqls') ∈ ws ∧ sql' ∈ sqls'
              ∧ search_model_in_query sql' models = Raise e)
  ∧ (∀ sql rest (all_found : list Model),
       search_model_in_query sql models = Ok [] →
       scan_sqls models (sql :: rest) all_found = scan_sqls models rest all_found).
Proof.
  split.
  - intros ws ref sqls sql Hin Hsql Hfail. unfold _parse_tables_from_sql.
    destruct (parse_loop_cases models ws []) as [Hall|(e & r & s & q & Hr & ? & ? & ?)].
    + rewrite (Hall ref sqls sql Hin Hsql) in Hfail. done.
    + exists e. split; [done|]. by exists r, s, q.
  - intros sql rest acc Hq. rewrite (scan_sqls_step _ _ _ _ [] Hq).
    simpl. by rewrite app_nil_r.
Qed.

End aggregator_claims.

(** The run of C1 on the custom-SQL mapping of the scenario: dashboard E,
    whose snippets name no relation, is left out. *)
Lemma parse_tables_from_sql_aggregates_witness :
  _parse_tables_from_sql Scenario.custom_sqls Scenario.registry
  = Ok [ (Scenario.dash_A, [Scenario.orders]);
         (Scenario.dash_B, [Scenario.orders]);
         (Scenario.dash_D, [Scenario.stg_orders]) ].
Proof.
  refine (eq_trans (proj1 (parse_tables_from_sql_aggregates
            Scenario.custom_sqls Scenario.registry _ _)) _).
  - unfold PyDict.wf. apply (bool_decide_unpack _). vm_compute. exact I.
  - intros ref sqls sql _ _. reflexivity.
  - vm_compute. reflexivity.
Defined.

(** C7 as stated fails: with a matcher that raises on the first snippet
    of dashboard A, the aggregator raises, where isolation of the failure
    would have given A the match of its second snippet. *)
Lemma snippet_failure_not_isolated :
  @_parse_tables_from_sql _ _ _ _ Scenario.flaky
     Scenario.flaky_sqls Scenario.registry
  = Raise "UnicodeDecodeError"
  ∧ @_parse_tables_from_sql _ _ _ _ (isolate_failures Scenario.flaky)
      Scenario.flaky_sqls Scenario.registry
    = Ok [ (Scenario.dash_A, [Scenario.orders]) ]
  ∧ @_parse_tables_from_sql _ _ _ _ Scenario.flaky
      Scenario.flaky_sqls Scenario.registry
    ≠ @_parse_tables_from_sql _ _ _ _ (isolate_failures Scenario.flaky)
        Scenario.flaky_sqls Scenario.registry.
Proof. split_and!; [vm_compute; reflexivity..|vm_compute; discriminate]. Qed.

Lemma snippet_failure_propagates_witness :
  ∃ e, @_parse_tables_from_sql _ _ _ _ Scenario.flaky
         Scenario.flaky_sqls Scenario.registry = Raise e.
Proof.
  destruct (proj1 (@snippet_failure_propagates _ _ _ _ Scenario.flaky Scenario.registry)
              Scenario.flaky_sqls Scenario.dash_A
              ["select * from unreadable"; "select * from orders"]
              "select * from unreadable") as (e & He & _).
  - apply list_elem_of_here.
  - apply list_elem_of_here.
  - reflexivity.
  - by exists e.
Defined.

(** ** The exposure-building loop *)

Ltac crawl_unfold :=
  unfold mbind, crawl_bind, mret, crawl_ret, call, lift; cbn beta iota.

Section crawler_facts.
Context {R User Model Models Exposure : Type}.
Context `{Reference R} `{QueryParsing Model Models} `{GraphqlClient R}.
Context `{TableauRestClient User} `{ExposureFactory User Model Exposure}.
Context `{Closing}.
Implicit Types (tr evs : list (event Model Exposure)).
Implicit Types (item : R * list Model) (items : list (R * list Model)).
Implicit Types (pkg : string) (ignore : list string).

Lemma exposures_added_app tr evs :
  exposures_added (tr ++ evs) = exposures_added tr ++ exposures_added evs.
Proof. unfold exposures_added. apply omap_app. Qed.

(** One iteration whose two requests are answered. *)
Lemma build_exposure_fetched pkg ignore ref found tr workbook owner :
  retrieve_workbook (reference_id ref) = Ok workbook →
  retrieve_user (owner_id workbook) = Ok owner →
  build_exposure pkg ignore (ref, found) tr =
  ( (tr ++ [EvRetrieveWorkbook (reference_id ref); EvRetrieveUser (owner_id workbook)])
    ++ (if _should_ignore_workbook workbook ignore then []
        else [EvAddExposure (from_tableau_workbook pkg workbook owner found) found]),
    Ok tt ).
Proof.
  intros Hw Hu. unfold build_exposure. crawl_unfold. rewrite Hw, Hu.
  rewrite <- app_assoc. simpl.
  destruct (_should_ignore_workbook workbook ignore); [|done].
  by rewrite app_nil_r.
Qed.

(** One iteration in general: its result is that of the two requests,
    and it registers what [exposure_calls] says. *)
Lemma build_exposure_run pkg ignore item tr :
  ∃ evs,
    build_exposure pkg ignore item tr =
      (tr ++ evs, fetch_metadata item ≫= fun _ => Ok tt)
    ∧ exposures_added evs = exposure_calls pkg ignore item
    ∧ Forall (fun ev => is_persist ev = false) evs.
Proof.
  destruct item as [ref found].
  unfold exposure_calls, fetch_metadata. cbn [fst snd].
  destruct (retrieve_workbook (reference_id ref)) as [workbook|e] eqn:Hw.
  - rewrite result_bind_Ok.
    destruct (retrieve_user (owner_id workbook)) as [owner|e] eqn:Hu.
    + rewrite (build_exposure_fetched _ _ _ _ _ _ _ Hw Hu), <- app_assoc.
      eexists. split; [reflexivity|]. simpl.
      destruct (_should_ignore_workbook workbook ignore); simpl;
        split; repeat constructor.
    + exists [EvRetrieveWorkbook (reference_id ref); EvRetrieveUser (owner_id workbook)].
      unfold build_exposure. crawl_unfold. rewrite Hw, Hu, <- app_assoc.
      split_and!; [done|done|repeat constructor].
    - exists [EvRetrieveWorkbook (reference_id ref)].
      unfold build_exposure. crawl_unfold. rewrite Hw.
      split_and!; [done|done|repeat constructor].
Qed.

Lemma build_exposures_cons pkg ignore item items tr :
  build_exposures pkg ignore (item :: items) tr =
  match build_exposure pkg ignore item tr with
  | (tr', Ok _) => build_exposures pkg ignore items tr'
  | (tr', Raise e) => (tr', Raise e)
  end.
Proof. reflexivity. Qed.

(** The loop stops at the first dashboard whose metadata cannot be
    fetched, with that exception. *)
Lemma build_exposures_fail pkg ignore pre item post e tr :
  Forall (fun it => is_ok (fetch_metadata it) = true) pre →
  fetch_metadata item = Raise e →
  ∃ evs,
    build_exposures pkg ignore (pre ++ item :: post) tr = (tr ++ evs, Raise e)
    ∧ exposures_added evs = pre ≫= exposure_calls pkg ignore
    ∧ Forall (fun ev => is_persist ev = false) evs.
Proof.
  intros Hpre Hitem. revert tr.
  induction Hpre as [|it pre Hit Hpre IH]; intros tr.
  - simpl app. rewrite build_exposures_cons.
    destruct (build_exposure_run pkg ignore item tr) as (evs & -> & Hadd & Hev).
    rewrite Hitem. simpl. exists evs. split_and!; [done| |done].
    rewrite Hadd. unfold exposure_calls. by rewrite Hitem.
  - simpl app. rewrite build_exposures_cons.
    destruct (build_exposure_run pkg ignore it tr) as (evs1 & -> & Hadd1 & Hev1).
    destruct (fetch_metadata it) as [[wb ow]|] eqn:Hf; [|done]. simpl.
    destruct (IH (tr ++ evs1)) as (evs & -> & Hadd & Hev).
    exists (evs1 ++ evs). rewrite app_assoc. split_and!; [done| |].
    + rewrite exposures_added_app, Hadd1, Hadd. done.
    + by apply Forall_app.
Qed.

(** The loop in general stops after some number of dashboards. *)
Lemma build_exposures_run pkg ignore items tr :
  ∃ n evs,
    (build_exposures pkg ignore items tr).1 = tr ++ evs
    ∧ exposures_added evs = take n items ≫= exposure_calls pkg ignore
    ∧ Forall (fun ev => is_persist ev = false) evs
    ∧ n ≤ length items
    ∧ (is_ok (build_exposures pkg ignore items tr).2 = true → n = length items).
Proof.
  revert tr. induction items as [|it items IH]; intros tr.
  - exists 0, []. simpl. rewrite app_nil_r. split_and!; done.
  - rewrite build_exposures_cons.
    destruct (build_exposure_run pkg ignore it tr) as (evs1 & -> & Hadd1 & Hev1).
    destruct (fetch_metadata it) as [[wb ow]|e] eqn:Hf; simpl.
    + destruct (IH (tr ++ evs1)) as (n & evs & Htr & Hadd & Hev & Hn & Hok).
      exists (S n), (evs1 ++ evs). rewrite Htr, app_assoc.
      split_and!; [done| |by apply Forall_app|simpl; lia|].
      * rewrite exposures_added_app, Hadd1, Hadd. done.
      * intros Hr. simpl. f_equal. by apply Hok.
    + exists 0, evs1. split_and!; [done| |done|lia|done].
      rewrite Hadd1. unfold exposure_calls. by rewrite Hf.
Qed.

Lemma first_failure items item :
  item ∈ items → is_ok (fetch_metadata item) = false →
  ∃ pre failing post e,
    items = pre ++ failing :: post
    ∧ Forall (fun it => is_ok (fetch_metadata it) = true) pre
    ∧ fetch_metadata failing = Raise e.
Proof.
  induction items as [|it items IH]; intros Hin Hfail.
  - by apply elem_of_nil in Hin.
  - destruct (fetch_metadata it) as [p|e] eqn:Hf.
    + apply elem_of_cons in Hin as [->|Hin]; [by rewrite Hf in Hfail|].
      destruct (IH Hin Hfail) as (pre & f & post & e & -> & Hpre & He).
      exists (it :: pre), f, post, e. split_and!; [done| |done].
      apply Forall_cons. split; [by rewrite Hf|done].
    + exists [], it, items, e. split_and!; [done|constructor|done].
Qed.

(** The crawler once both SQL sources are read and scanned. *)
Lemma tableau_crawler_merged models pkg ignore method path wsc wsn a b tr :
  retrieve_custom_sql = Ok wsc → _parse_tables_from_sql wsc models = Ok a →
  retrieve_native_sql = Ok wsn → _parse_tables_from_sql wsn models = Ok b →
  tableau_crawler models pkg ignore method path tr =
  match build_exposures pkg ignore (merge_models a b)
          (tr ++ [EvRetrieveCustomSql; EvRetrieveNativeSql]) with
  | (tr', Ok _) =>
      match sign_out with
      | Ok _ => (tr' ++ [EvSignOut; EvPersist method path], persist method path)
      | Raise e => (tr' ++ [EvSignOut], Raise e)
      end
  | (tr', Raise e) => (tr', Raise e)
  end.
Proof.
  intros Hc Ha Hn Hb. unfold tableau_crawler. crawl_unfold.
  rewrite Hc, Ha, Hn, Hb, <- app_assoc. simpl.
  destruct (build_exposures pkg ignore (merge_models a b) _) as [tr' [[]|e]];
    [|done].
  destruct sign_out as [[]|e]; [|done].
  by rewrite <- app_assoc.
Qed.

End crawler_facts.

(** ** What the crawler does *)

Section crawler_claims.
Context {R User Model Models Exposure : Type}.
Context `{Reference R} `{QueryParsing Model Models} `{GraphqlClient R}.
Context `{TableauRestClient User} `{ExposureFactory User Model Exposure}.
Context `{Closing}.
Implicit Types (tr : list (event Model Exposure)).
Implicit Types (pkg method path : string) (ignore : list string).


(** C8: when the metadata of some dashboard of the merged mapping cannot
    be fetched, the run ends with the exception of the first such
    dashboard; the exposures registered are those of the dashboards
    before it, and nothing is persisted. *)
Theorem fetch_failure_aborts_run models pkg ignore method path wsc wsn a b item :
  retrieve_custom_sql = Ok wsc → _parse_tables_from_sql wsc models = Ok a →
  retrieve_native_sql = Ok wsn → _parse_tables_from_sql wsn models = Ok b →
  item ∈ merge_models a b → is_ok (fetch_metadata item) = false →
  ∃ pre failing post e tr,
    merge_models a b = pre ++ failing :: post
    ∧ Forall (fun it => is_ok (fetch_metadata it) = true) pre
    ∧ fetch_metadata failing = Raise e
    ∧ tableau_crawler models pkg ignore method path [] = (tr, Raise e)
    ∧ exposures_added tr = pre ≫= exposure_calls pkg ignore
    ∧ Forall (fun ev => is_persist ev = false) tr.
Proof.
  intros Hc Ha Hn Hb Hin Hfail.
  destruct (first_failure _ _ Hin Hfail) as (pre & failing & post & e & Hsplit & Hpre & He).
  destruct (build_exposures_fail pkg ignore pre failing post e
              [EvRetrieveCustomSql; EvRetrieveNativeSql] Hpre He)
    as (evs & Hrun & Hadd & Hev).
  exists pre, failing, post, e, ([EvRetrieveCustomSql; EvRetrieveNativeSql] ++ evs).
  split_and!; [done|done|done| | |].
  - rewrite (tableau_crawler_merged _ _ _ _ _ _ _ _ _ _ Hc Ha Hn Hb).
    rewrite app_nil_l, Hsplit, Hrun. done.
  - by rewrite exposures_added_app, Hadd.
  - apply Forall_app. split; [repeat constructor|done].
Qed.

(** C9, as the code has it: the merged mapping holds each dashboard
    reference once (the key is the reference, not its id), and the loop
    registers, for the dashboards it gets to, one exposure for each that
    is fetched and not excluded and none for an excluded one; when it
    ends without an exception it has got to all of them.  The ids of the
    merged references are distinct, and so is there at most one exposure
    for an id, when references with the same id are the same reference. *)
Theorem one_exposure_per_dashboard pkg ignore (a b : list (R * list Model)) tr :
  NoDup (PyDict.keys (merge_models a b))
  ∧ ((∀ ref ref', ref ∈ PyDict.keys (merge_models a b) →
        ref' ∈ PyDict.keys (merge_models a b) →
        reference_id ref = reference_id ref' → ref = ref') →
     NoDup (reference_id <$> PyDict.keys (merge_models a b)))
  ∧ (∀ item workbook owner,
       fetch_metadata item = Ok (workbook, owner) →
       exposure_calls pkg ignore item =
       if _should_ignore_workbook workbook ignore then []
       else [(from_tableau_workbook pkg workbook owner item.2, item.2)])
  ∧ ∃ n, n ≤ length (merge_models a b)
      ∧ exposures_added (build_exposures pkg ignore (merge_models a b) tr).1
        = exposures_added tr ++ (take n (merge_models a b) ≫= exposure_calls pkg ignore)
      ∧ (is_ok (build_exposures pkg ignore (merge_models a b) tr).2 = true →
         n = length (merge_models a b)).
Proof.
  assert (Hkeys : NoDup (PyDict.keys (merge_models a b)))
    by (unfold merge_models; apply wf_foldl_merge, NoDup_nil_2).
  split_and!.
  - done.
  - intros Hinj. by apply NoDup_fmap_2_strong.
  - intros item workbook owner Hf. unfold exposure_calls. by rewrite Hf.
  - destruct (build_exposures_run pkg ignore (merge_models a b) tr)
      as (n & evs & Htr & Hadd & _ & Hn & Hok).
    exists n. split_and!; [done| |done].
    by rewrite Htr, exposures_added_app, Hadd.
Qed.

Lemma exposure_calls_found pkg ignore (items : list (R * list Model)) :
  Forall (fun it => it.2 ≠ []) items →
  Forall (fun c : Exposure * list Model => c.2 ≠ [])
    (items ≫= exposure_calls pkg ignore).
Proof.
  induction 1 as [|it items Hit _ IH]; [constructor|].
  simpl. apply Forall_app. split; [|done].
  unfold exposure_calls.
  destruct (fetch_metadata it) as [[wb ow]|]; [|constructor].
  destruct (_should_ignore_workbook wb ignore); repeat constructor; done.
Qed.

(** C10: every list the aggregator stores is non-empty, so is every list
    of the merge of two aggregator outputs, and every exposure the
    crawler registers is built from a non-empty list of relations. *)
Theorem match_lists_nonempty models pkg ignore method path :
  (∀ ws out, _parse_tables_from_sql ws models = Ok out →
     Forall (fun l => l ≠ []) (PyDict.values out))
  ∧ (∀ wsc wsn a b,
       _parse_tables_from_sql wsc models = Ok a →
       _parse_tables_from_sql wsn models = Ok b →
       Forall (fun l => l ≠ []) (PyDict.values (merge_models a b)))
  ∧ Forall (fun c : Exposure * list Model => c.2 ≠ [])
      (exposures_added (tableau_crawler models pkg ignore method path []).1).
Proof.
  assert (Hagg : ∀ ws out, _parse_tables_from_sql ws models = Ok out →
                   Forall (fun l => l ≠ []) (PyDict.values out)).
  { intros ws out Hp. by apply (parse_loop_nonempty models ws [] out Hp). }
  assert (Hmerge : ∀ wsc wsn a b,
       _parse_tables_from_sql wsc models = Ok a →
       _parse_tables_from_sql wsn models = Ok b →
       Forall (fun l => l ≠ []) (PyDict.values (merge_models a b))).
  { intros wsc wsn a b Ha Hb. unfold merge_models. rewrite foldl_app.
    apply nonempty_foldl_merge; [by apply (Hagg wsn)|].
    apply nonempty_foldl_merge; [by apply (Hagg wsc)|done]. }
  split_and!; [done|done|].
  destruct retrieve_custom_sql as [wsc|e1] eqn:Hc;
    [|unfold tableau_crawler; crawl_unfold; rewrite Hc; constructor].
  destruct (_parse_tables_from_sql wsc models) as [a|e2] eqn:Ha;
    [|unfold tableau_crawler; crawl_unfold; rewrite Hc, Ha; constructor].
  destruct retrieve_native_sql as [wsn|e3] eqn:Hn;
    [|unfold tableau_crawler; crawl_unfold; rewrite Hc, Ha, Hn; constructor].
  destruct (_parse_tables_from_sql wsn models) as [b|e4] eqn:Hb;
    [|unfold tableau_crawler; crawl_unfold; rewrite Hc, Ha, Hn, Hb; constructor].
  rewrite (tableau_crawler_merged _ _ _ _ _ _ _ _ _ _ Hc Ha Hn Hb).
  destruct (build_exposures_run pkg ignore (merge_models a b)
              ([] ++ [EvRetrieveCustomSql; EvRetrieveNativeSql]))
    as (n & evs & Htr & Hadd & _ & _ & _).
  assert (Hcalls : Forall (fun c : Exposure * list Model => c.2 ≠ [])
                     (exposures_added evs)).
  { rewrite Hadd. apply exposure_calls_found.
    apply Forall_take. specialize (Hmerge wsc wsn a b Ha Hb).
    apply Forall_forall. intros [k l] Hin.
    rewrite Forall_forall in Hmerge. apply Hmerge.
    apply list_elem_of_fmap. by exists (k, l). }
  destruct (build_exposures pkg ignore (merge_models a b) _) as [tr' [[]|e]];
    simpl in Htr; subst tr'; [destruct sign_out as [[]|e]|];
    simpl; rewrite ?exposures_added_app;
    rewrite ?Forall_app; split_and?; try done; constructor.
Qed.

End crawler_claims.

(** ** Deduplication of the depends-on list *)

Section dedup_facts.
Import DbtExposure.
Context {User Model : Type} (unique_id : Model → string).
Implicit Types (found : list Model) (seen : list string) (id : string).

Lemma filter_dedup_first seen found id :
  filter (fun m => unique_id m = id) (dedup_first unique_id seen found) =
  if decide (id ∈ seen) then []
  else option_list (head (filter (fun m => unique_id m = id) found)).
Proof.
  revert seen. induction found as [|m rest IH]; intros seen.
  - simpl. by destruct (decide (id ∈ seen)).
  - simpl. destruct (decide (unique_id m ∈ seen)) as [Hm|Hm].
    + rewrite IH. destruct (decide (id ∈ seen)) as [|Hid]; [done|].
      rewrite (filter_cons_False _ m); [done|]. intros Heq. apply Hid. by rewrite <- Heq.
    + destruct (decide (unique_id m = id)) as [Heq|Hne].
      * rewrite !(filter_cons_True _ m) by done. rewrite IH.
        rewrite decide_True by (rewrite Heq; apply list_elem_of_here).
        rewrite decide_False by (by rewrite <- Heq). done.
      * rewrite !(filter_cons_False _ m) by done. rewrite IH.
        destruct (decide (id ∈ seen)) as [Hid|Hid].
        -- rewrite decide_True by (by apply list_elem_of_further). done.
        -- rewrite decide_False; [done|].
           intros Hin. apply elem_of_cons in Hin as [Heq|Hin]; [by apply Hne|done].
Qed.

Lemma reverse_option_list {A} (o : option A) :
  reverse (option_list o) = option_list o.
Proof. by destruct o. Qed.

(** Which record of a given id the deduplication keeps. *)
Lemma filter_deduplicate tie found id :
  filter (fun m => unique_id m = id) (deduplicate unique_id tie found) =
  option_list (match tie with
               | FirstWins => head (filter (fun m => unique_id m = id) found)
               | LastWins => last (filter (fun m => unique_id m = id) found)
               end).
Proof.
  destruct tie; simpl.
  - rewrite filter_dedup_first. by rewrite decide_False by apply not_elem_of_nil.
  - rewrite filter_reverse, filter_dedup_first.
    rewrite decide_False by apply not_elem_of_nil.
    by rewrite reverse_option_list, filter_reverse, head_reverse.
Qed.

Lemma dedup_first_NoDup seen found :
  NoDup (unique_id <$> dedup_first unique_id seen found)
  ∧ ∀ x, x ∈ unique_id <$> dedup_first unique_id seen found → x ∉ seen.
Proof.
  revert seen. induction found as [|m rest IH]; intros seen.
  - simpl. split; [apply NoDup_nil_2|]. intros x Hx. by apply elem_of_nil in Hx.
  - simpl. destruct (decide (unique_id m ∈ seen)) as [Hm|Hm]; [apply IH|].
    destruct (IH (unique_id m :: seen)) as [Hnd Hfresh].
    rewrite fmap_cons. split.
    + apply NoDup_cons. split; [|done].
      intros Hin. apply (Hfresh _ Hin), list_elem_of_here.
    + intros x Hx. apply elem_of_cons in Hx as [->|Hx]; [done|].
      intros Hseen. apply (Hfresh _ Hx). by apply list_elem_of_further.
Qed.

Lemma deduplicate_NoDup tie found :
  NoDup (unique_id <$> deduplicate unique_id tie found).
Proof.
  destruct tie; simpl.
  - apply dedup_first_NoDup.
  - rewrite fmap_reverse, reverse_Permutation. apply dedup_first_NoDup.
Qed.

Lemma occurrences_fmap id (l : list Model) :
  occurrences id (unique_id <$> l) = length (filter (fun m => unique_id m = id) l).
Proof.
  unfold occurrences. induction l as [|m l IH]; [done|].
  rewrite fmap_cons. destruct (decide (unique_id m = id)) as [Heq|Hne].
  - rewrite (filter_cons_True _ (unique_id m)), (filter_cons_True _ m) by done.
    simpl. by rewrite IH.
  - by rewrite (filter_cons_False _ (unique_id m)), (filter_cons_False _ m).
Qed.

(** C4: when a unique id occurs more than once among the matched
    relations, the depends-on list of the exposure built from them holds
    it exactly once (and holds no id twice); the record kept is the first
    of that id under [FirstWins] and the last under [LastWins]. *)
Theorem depends_on_deduplicated tie pkg (workbook : Workbook) (owner : User) found id :
  1 < occurrences id (unique_id <$> found) →
  occurrences id
    (depends_on (from_tableau_workbook_spec unique_id tie pkg workbook owner found))
  = 1
  ∧ NoDup (depends_on (from_tableau_workbook_spec unique_id tie pkg workbook owner found))
  ∧ filter (fun m => unique_id m = id) (deduplicate unique_id tie found)
    = option_list
        (match tie with
         | FirstWins => head (filter (fun m => unique_id m = id) found)
         | LastWins => last (filter (fun m => unique_id m = id) found)
         end).
Proof.
  intros Hocc. rewrite occurrences_fmap in Hocc. simpl.
  split_and!; [|apply deduplicate_NoDup|apply filter_deduplicate].
  rewrite occurrences_fmap, filter_deduplicate.
  destruct (filter (fun m => unique_id m = id) found) as [|m ms] eqn:Hf using rev_ind;
    [simpl in Hocc; lia|].
  destruct tie.
  - destruct ms; reflexivity.
  - by rewrite last_snoc.
Qed.

End dedup_facts.

(** ** The matcher *)

Section matcher_facts.
Import QuerySpec.
Implicit Types (name text pre post : list ascii) (prev : option ascii).
Implicit Types (r : Relation) (registry : list Relation).
Implicit Types (out : list (string * Relation)).

Lemma before_cons prev c pre : before prev (c :: pre) = before (Some c) pre.
Proof.
  unfold before. destruct pre as [|d pre]; [done|].
  rewrite last_cons_cons. destruct (last (d :: pre)) eqn:Hl; [done|].
  by apply last_None in Hl.
Qed.

Lemma before_None pre : before None pre = last pre.
Proof. unfold before. by destruct (last pre). Qed.

Lemma strip_prefix_Some name text rest :
  strip_prefix name text = Some rest ↔ text = name ++ rest.
Proof.
  revert text. induction name as [|c name IH]; intros text; simpl.
  - split; [by intros [= ->]|by intros ->].
  - destruct text as [|d text]; [done|].
    destruct (decide (c = d)) as [->|Hne].
    + rewrite IH. split; [by intros ->|by intros [= ->]].
    + split; [done|]. intros [= -> _]. done.
Qed.

Lemma token_here_true prev name text :
  token_here prev name text = true ↔
  boundary prev = true
  ∧ ∃ post, text = name ++ post ∧ boundary (head post) = true.
Proof.
  unfold token_here. rewrite andb_true_iff.
  destruct (strip_prefix name text) as [rest|] eqn:Hs.
  - apply strip_prefix_Some in Hs as ->. split.
    + intros [Hp Hb]. split; [done|]. by exists rest.
    + intros [Hp (post & Heq & Hb)]. apply app_inv_head in Heq as ->. done.
  - split; [by intros [_ ?]|].
    intros [_ (post & -> & _)].
    assert (strip_prefix name (name ++ post) = Some post) as Hs'
      by by apply strip_prefix_Some.
    congruence.
Qed.

(** A token occurrence somewhere in the text, as a split of the text at
    the place where the scan finds it. *)
Lemma standalone_in_split name text :
  standalone_in name text ↔
  ∃ pre post, text = pre ++ post ∧ token_here (last pre) name post = true.
Proof.
  unfold standalone_in. split.
  - intros (pre & post & -> & Hb & Ha). exists pre, (name ++ post).
    split; [done|]. apply token_here_true. split; [done|]. by exists post.
  - intros (pre & rest & -> & Ht).
    apply token_here_true in Ht as [Hb (post & -> & Ha)]. by exists pre, post.
Qed.

Lemma record_matches_keys prev text registry out id :
  id ∈ PyDict.keys (record_matches prev text registry out) ↔
  id ∈ PyDict.keys out
  ∨ ∃ r, r ∈ registry ∧ unique_id r = id ∧ matches_here prev text r = true.
Proof.
  unfold record_matches. revert out.
  induction registry as [|r0 registry IH]; intros out; cbn [foldl].
  - split; [by left|]. intros [?|(r & Hr & _)]; [done|]. by apply elem_of_nil in Hr.
  - rewrite IH. destruct (matches_here prev text r0) eqn:Hm.
    + rewrite keys_setdefault.
      destruct (decide (unique_id r0 ∈ PyDict.keys out)) as [Hin|Hnin].
      * split.
        -- intros [?|(r & Hr & ? & ?)]; [by left|].
           right. exists r. split_and!; [by apply list_elem_of_further|done|done].
        -- intros [?|(r & Hr & Hid & Hmr)]; [by left|].
           apply elem_of_cons in Hr as [->|Hr]; [left; by rewrite <- Hid|].
           right. by exists r.
      * rewrite elem_of_app, list_elem_of_singleton. split.
        -- intros [[?| -> ]|(r & Hr & ? & ?)]; [by left| |].
           ++ right. exists r0. split_and!; [apply list_elem_of_here|done|done].
           ++ right. exists r. split_and!; [by apply list_elem_of_further|done|done].
        -- intros [?|(r & Hr & Hid & Hmr)]; [by left; left|].
           apply elem_of_cons in Hr as [->|Hr]; [left; by right|].
           right. by exists r.
    + split.
      * intros [?|(r & Hr & ? & ?)]; [by left|].
        right. exists r. split_and!; [by apply list_elem_of_further|done|done].
      * intros [?|(r & Hr & Hid & Hmr)]; [by left|].
        apply elem_of_cons in Hr as [->|Hr]; [congruence|].
        right. by exists r.
Qed.

Lemma record_matches_values prev text registry out r :
  r ∈ PyDict.values (record_matches prev text registry out) →
  r ∈ PyDict.values out ∨ (r ∈ registry ∧ matches_here prev text r = true).
Proof.
  unfold record_matches. revert out.
  induction registry as [|r0 registry IH]; intros out; cbn [foldl]; [by left|].
  intros Hin. apply IH in Hin as [Hin|[Hr Hm]].
  - destruct (matches_here prev text r0) eqn:Hm; [|by left].
    unfold PyDict.setdefault in Hin.
    destruct (PyDict.get (unique_id r0) out); [by left|].
    unfold PyDict.values in Hin. rewrite fmap_app, elem_of_app in Hin.
    destruct Hin as [?|Hin]; [by left|].
    apply list_elem_of_singleton in Hin as ->. right. split; [apply list_elem_of_here|done].
  - right. split; [by apply list_elem_of_further|done].
Qed.

Lemma scan_text_keys prev text registry out id :
  id ∈ PyDict.keys (scan_text prev text registry out) ↔
  id ∈ PyDict.keys out
  ∨ ∃ r, r ∈ registry ∧ unique_id r = id
      ∧ ∃ pre post, text = pre ++ post ∧ matches_here (before prev pre) post r = true.
Proof.
  revert prev out. induction text as [|c text IH]; intros prev out; cbn [scan_text].
  - rewrite record_matches_keys. split.
    + intros [?|(r & Hr & Hid & Hm)]; [by left|].
      right. exists r. split_and!; [done|done|]. by exists [], [].
    + intros [?|(r & Hr & Hid & pre & post & Heq & Hm)]; [by left|].
      symmetry in Heq. apply app_eq_nil in Heq as [-> ->].
      right. by exists r.
  - rewrite IH, record_matches_keys. split.
    + intros [[?|(r & Hr & Hid & Hm)]|(r & Hr & Hid & pre & post & -> & Hm)].
      * by left.
      * right. exists r. split_and!; [done|done|]. by exists [], (c :: text).
      * right. exists r. split_and!; [done|done|]. exists (c :: pre), post.
        by rewrite before_cons.
    + intros [?|(r & Hr & Hid & pre & post & Heq & Hm)]; [by left; left|].
      destruct pre as [|d pre].
      * simpl in Heq. subst post. left. right. by exists r.
      * injection Heq as <- ->. rewrite before_cons in Hm.
        right. exists r. split_and!; [done|done|]. by exists pre, post.
Qed.

Lemma scan_text_values prev text registry out r :
  r ∈ PyDict.values (scan_text prev text registry out) →
  r ∈ PyDict.values out
  ∨ (r ∈ registry
     ∧ ∃ pre post, text = pre ++ post ∧ matches_here (before prev pre) post r = true).
Proof.
  revert prev out. induction text as [|c text IH]; intros prev out; cbn [scan_text].
  - intros Hin. apply record_matches_values in Hin as [?|[Hr Hm]]; [by left|].
    right. split; [done|]. by exists [], [].
  - intros Hin. apply IH in Hin as [Hin|(Hr & pre & post & -> & Hm)].
    + apply record_matches_values in Hin as [?|[Hr Hm]]; [by left|].
      right. split; [done|]. by exists [], (c :: text).
    + right. split; [done|]. exists (c :: pre), post. by rewrite before_cons.
Qed.

Lemma matches_here_true prev text r :
  matches_here prev text r = true ↔
  token_here prev (lower_name (qualified_name r)) text = true
  ∨ token_here prev (lower_name (relation_name r)) text = true.
Proof. unfold matches_here. apply orb_true_iff. Qed.

Lemma chars_append (s1 s2 : string) : chars (s1 +:+ s2) = chars s1 ++ chars s2.
Proof.
  unfold chars. induction s1 as [|c s1 IH]; simpl; [done|]. by rewrite IH.
Qed.

(** A token occurrence of the qualified name ends in one of the
    unqualified name: a dot precedes it. *)
Lemma qualified_standalone r (sql_text : string) :
  occurs_standalone (qualified_name r) sql_text →
  occurs_standalone (relation_name r) sql_text.
Proof.
  unfold occurs_standalone, standalone_in, qualified_name, lower_name.
  rewrite !chars_append, !fmap_app.
  change (lower_char <$> chars ".") with ["."%char].
  intros (pre & post & Heq & _ & Ha).
  exists (pre ++ (lower_char <$> chars (database r)) ++ ["."%char]
          ++ (lower_char <$> chars (schema r)) ++ ["."%char]), post.
  split_and!; [|by rewrite !app_assoc, last_snoc|done].
  rewrite Heq. by rewrite <- !app_assoc.
Qed.

End matcher_facts.

Section matcher_claims.
Import QuerySpec.
Implicit Types (r : Relation) (registry : list Relation) (sql_text : string).

Lemma unique_id_inj registry r r' :
  NoDup (unique_id <$> registry) → r ∈ registry → r' ∈ registry →
  unique_id r' = unique_id r → r' = r.
Proof.
  induction registry as [|r0 registry IH]; intros Hnd Hr Hr' Hid.
  - by apply elem_of_nil in Hr.
  - rewrite fmap_cons in Hnd. apply NoDup_cons in Hnd as [Hr0 Hnd].
    apply elem_of_cons in Hr as [->|Hr]; apply elem_of_cons in Hr' as [->|Hr'].
    + done.
    + exfalso. apply Hr0. rewrite <- Hid. apply list_elem_of_fmap. by exists r'.
    + exfalso. apply Hr0. rewrite Hid. apply list_elem_of_fmap. by exists r.
    + by apply IH.
Qed.

Lemma not_standalone_inside (name sql_text : string) :
  occurs_within name sql_text → ¬ occurs_standalone name sql_text →
  only_inside_identifier name sql_text.
Proof.
  intros Hw Hns. split; [done|]. intros pre post Heq.
  destruct (boundary (last pre)) eqn:Hb; [|by left].
  destruct (boundary (head post)) eqn:Ha; [|by right].
  exfalso. apply Hns. by exists pre, post.
Qed.

Lemma found_relation_standalone sql_text registry r :
  r ∈ PyDict.values (find_models sql_text registry) →
  r ∈ registry ∧ occurs_standalone (relation_name r) sql_text.
Proof.
  unfold find_models. intros Hin.
  apply scan_text_values in Hin as [Hin|(Hr & pre & post & Heq & Hm)].
  { by apply elem_of_nil in Hin. }
  split; [done|]. rewrite before_None in Hm.
  apply matches_here_true in Hm as [Hm|Hm].
  - apply qualified_standalone, standalone_in_split. by exists pre, post.
  - apply standalone_in_split. by exists pre, post.
Qed.

(** C5: a relation of the registry whose qualified or unqualified name
    occurs in the text as a standalone token (in any case, quoting
    characters apart) has its unique id among the keys of the matcher's
    result; a relation whose name occurs only inside longer identifiers
    is not among its values, nor, unique ids being unique in the
    registry, is its unique id among its keys. *)
Theorem find_models_standalone_tokens sql_text registry :
  (∀ r, r ∈ registry →
     occurs_standalone (qualified_name r) sql_text
     ∨ occurs_standalone (relation_name r) sql_text →
     unique_id r ∈ PyDict.keys (find_models sql_text registry))
  ∧ (∀ r, only_inside_identifier (relation_name r) sql_text →
     r ∉ PyDict.values (find_models sql_text registry))
  ∧ (∀ r, r ∈ registry → NoDup (unique_id <$> registry) →
     only_inside_identifier (relation_name r) sql_text →
     unique_id r ∉ PyDict.keys (find_models sql_text registry)).
Proof.
  assert (Hinside : ∀ r, only_inside_identifier (relation_name r) sql_text →
                         ¬ occurs_standalone (relation_name r) sql_text).
  { intros r [_ Hall] (pre & post & Heq & Hb & Ha).
    destruct (Hall pre post Heq); congruence. }
  split_and!.
  - intros r Hr Hocc. unfold find_models. apply scan_text_keys. right.
    exists r. split_and!; [done|done|].
    assert (∃ pre post, normalize sql_text = pre ++ post
              ∧ (token_here (last pre) (lower_name (qualified_name r)) post = true
                 ∨ token_here (last pre) (lower_name (relation_name r)) post = true))
      as (pre & post & Heq & Hm).
    { destruct Hocc as [Hq|Hu].
      - apply standalone_in_split in Hq as (pre & post & Heq & Ht).
        exists pre, post. by split; [|left].
      - apply standalone_in_split in Hu as (pre & post & Heq & Ht).
        exists pre, post. by split; [|right]. }
    exists pre, post. split; [done|].
    rewrite before_None. by apply matches_here_true.
  - intros r Hin Hfound. apply found_relation_standalone in Hfound as [_ Hocc].
    by apply (Hinside r).
  - intros r Hr Hnd Hin Hkey. unfold find_models in Hkey.
    apply scan_text_keys in Hkey as [Hkey|(r' & Hr' & Hid & pre & post & Heq & Hm)].
    { by apply elem_of_nil in Hkey. }
    assert (r' = r) as -> by by apply (unique_id_inj registry).
    apply (Hinside r Hin). rewrite before_None in Hm.
    apply matches_here_true in Hm as [Hm|Hm].
    + apply qualified_standalone, standalone_in_split. by exists pre, post.
    + apply standalone_in_split. by exists pre, post.
Qed.

End matcher_claims.

(** ** The scenario, evaluated *)

Section scenario_runs.
Import Scenario QuerySpec.

Lemma should_ignore_workbook_cases_witness :
  _should_ignore_workbook (mkWorkbook "Sandbox" (Some "") "u2") ["Finance"] = true
  ∧ _should_ignore_workbook (mkWorkbook "Finance" (Some "Finance") "u1") ["Finance"] = true
  ∧ _should_ignore_workbook (mkWorkbook "Sales overview" (Some "Sales") "u1") ["Finance"]
    = false.
Proof.
  split_and!.
  - apply (proj1 (should_ignore_workbook_cases
                    (mkWorkbook "Sandbox" (Some "") "u2") ["Finance"])).
    by right.
  - apply (proj1 (proj2 (should_ignore_workbook_cases
                    (mkWorkbook "Finance" (Some "Finance") "u1") ["Finance"]))
             "Finance"); [reflexivity|].
    apply list_elem_of_here.
  - apply (proj2 (proj2 (should_ignore_workbook_cases
                    (mkWorkbook "Sales overview" (Some "Sales") "u1") ["Finance"]))
             "Sales"); [reflexivity|discriminate|].
    apply (bool_decide_unpack _). vm_compute. exact I.
Defined.

(** Dashboard A is in both sources: its merged list is the custom-SQL
    list and then the native-SQL list, [orders] twice. *)
Lemma merge_models_union_witness :
  PyDict.get dash_A (merge_models custom_models native_models)
  = Some [orders; orders; stg_orders].
Proof.
  assert (PyDict.wf custom_models) as Ha
    by (unfold PyDict.wf; apply (bool_decide_unpack _); vm_compute; exact I).
  assert (PyDict.wf native_models) as Hb
    by (unfold PyDict.wf; apply (bool_decide_unpack _); vm_compute; exact I).
  exact (proj1 (proj2 (merge_models_union custom_models native_models Ha Hb))
           dash_A [orders] [orders; stg_orders] eq_refl eq_refl).
Defined.

Lemma depends_on_deduplicated_witness :
  DbtExposure.occurrences "m1"
    (DbtExposure.depends_on
       (DbtExposure.from_tableau_workbook_spec unique_id DbtExposure.FirstWins "pkg"
          (mkWorkbook "Sales overview" (Some "Sales") "u1") "alice"
          [orders; orders; stg_orders]))
  = 1.
Proof.
  assert (1 < DbtExposure.occurrences "m1" (unique_id <$> [orders; orders; stg_orders]))
    as Htwice by (vm_compute; lia).
  exact (proj1 (depends_on_deduplicated unique_id DbtExposure.FirstWins "pkg"
                  (mkWorkbook "Sales overview" (Some "Sales") "u1") "alice"
                  [orders; orders; stg_orders] "m1" Htwice)).
Defined.

Lemma find_models_standalone_tokens_witness :
  "m2" ∈ PyDict.keys (find_models "select * from STG_ORDERS" registry)
  ∧ orders ∉ PyDict.values (find_models "select * from STG_ORDERS" registry).
Proof.
  pose proof (find_models_standalone_tokens "select * from STG_ORDERS" registry)
    as (Hin & Hout & _).
  split.
  - apply (Hin stg_orders).
    + apply (bool_decide_unpack _). vm_compute. exact I.
    + right. exists (chars "select * from "), []. by vm_compute.
  - apply (Hout orders). apply not_standalone_inside.
    + exists (chars "select * from stg_"), []. by vm_compute.
    + intros Hocc.
      assert ("m1" ∈ PyDict.keys (find_models "select * from STG_ORDERS" registry)) as Hk.
      { apply (Hin orders); [|by right].
        apply (bool_decide_unpack _). vm_compute. exact I. }
      revert Hk. apply (bool_decide_unpack _). vm_compute. exact I.
Defined.


(** Dashboard D cannot be fetched: the run ends there, before dashboard
    C, and nothing is persisted. *)
Lemma fetch_failure_aborts_run_witness :
  ∃ e tr,
    tableau_crawler registry "pkg" ["Finance"] "save" "target/manifest.json" []
    = (tr, Raise e)
    ∧ Forall (fun ev => is_persist ev = false) tr.
Proof.
  destruct (fetch_failure_aborts_run registry "pkg" ["Finance"] "save"
              "target/manifest.json" custom_sqls native_sqls
              custom_models native_models (dash_D, [stg_orders]))
    as (pre & failing & post & e & tr & _ & _ & _ & Hrun & _ & Hev).
  - reflexivity.
  - vm_compute. reflexivity.
  - reflexivity.
  - vm_compute. reflexivity.
  - apply (bool_decide_unpack _). vm_compute. exact I.
  - reflexivity.
  - by exists e, tr.
Defined.

(** The four merged dashboards of the scenario have four ids. *)
Lemma one_exposure_per_dashboard_witness :
  NoDup (PyDict.keys (merge_models custom_models native_models))
  ∧ NoDup (reference_id <$> PyDict.keys (merge_models custom_models native_models)).
Proof.
  pose proof (one_exposure_per_dashboard (User := string)
                (Exposure := DbtExposure.Exposure string)
                "pkg" ["Finance"] custom_models native_models [])
    as (Hkeys & Hids & _).
  split; [exact Hkeys|]. apply Hids.
  assert (PyDict.keys (merge_models custom_models native_models)
          = [dash_A; dash_B; dash_D; dash_C]) as -> by (vm_compute; reflexivity).
  intros ref ref' Hin Hin' Hid.
  apply list_elem_of_In in Hin. apply list_elem_of_In in Hin'.
  simpl in Hin, Hin'.
  destruct Hin as [<-|[<-|[<-|[<-|[]]]]];
    destruct Hin' as [<-|[<-|[<-|[<-|[]]]]];
    (reflexivity || discriminate Hid).
Defined.

(** C9 as stated fails: two references that share the id [A] and differ
    in their names are two keys of the merged mapping; workbook [A] is
    requested twice and the same exposure is registered twice. *)
Lemma same_identifier_two_exposures :
  PyDict.keys (merge_models Renamed.custom_models Renamed.native_models)
  = [dash_A; Renamed.dash_A_renamed]
  ∧ ¬ NoDup (reference_id <$>
               PyDict.keys (merge_models Renamed.custom_models Renamed.native_models))
  ∧ build_exposures "pkg" ["Finance"]
      (merge_models Renamed.custom_models Renamed.native_models) []
    = ([ EvRetrieveWorkbook "A"; EvRetrieveUser "u1";
         EvAddExposure
           (DbtExposure.mkExposure "pkg" "Sales overview" "alice" ["m1"]) [orders];
         EvRetrieveWorkbook "A"; EvRetrieveUser "u1";
         EvAddExposure
           (DbtExposure.mkExposure "pkg" "Sales overview" "alice" ["m1"]) [orders] ],
       Ok tt).
Proof.
  split_and!.
  - vm_compute. reflexivity.
  - assert (reference_id <$>
              PyDict.keys (merge_models Renamed.custom_models Renamed.native_models)
            = ["A"; "A"]) as -> by (vm_compute; reflexivity).
    intros Hnd. apply NoDup_cons in Hnd as [Hnotin _].
    apply Hnotin, list_elem_of_here.
  - vm_compute. reflexivity.
Qed.

Lemma match_lists_nonempty_witness :
  Forall (fun l : list Relation => l ≠ []) (PyDict.values custom_models).
Proof.
  apply (proj1 (match_lists_nonempty (R := WorkbookReference) (User := string)
                  (Exposure := DbtExposure.Exposure string)
                  registry "pkg" ["Finance"] "save" "target/manifest.json")
           custom_sqls custom_models).
  vm_compute. reflexivity.
Defined.

End scenario_runs.

(** * Further properties of the crawler *)

(** ** The aggregator, dashboard by dashboard *)

Section aggregator_more.
Context {R Model Models : Type} `{Reference R} `{QueryParsing Model Models}.
Implicit Types (models : Models) (ws : list (R * list string)).
Implicit Types (out : list (R * list Model)).

Lemma parse_loop_app models ws1 ws2 out :
  parse_loop models (ws1 ++ ws2) out =
  parse_loop models ws1 out ≫= fun out' => parse_loop models ws2 out'.
Proof.
  revert out. induction ws1 as [|[ref sqls] ws1 IH]; intros out; [done|].
  cbn [app parse_loop].
  destruct (scan_sqls models sqls []) as [found|e]; [|done].
  rewrite !result_bind_Ok. destruct (truthy found); apply IH.
Qed.

Lemma parse_Ok_scans_all models ws out0 out :
  parse_loop models ws out0 = Ok out → scans_all models ws.
Proof.
  intros Hp. destruct (parse_loop_cases models ws out0)
    as [Hall|(e & r & s & q & Hr & _)]; [done|congruence].
Qed.

Lemma keys_aggregate_sublist models ws :
  PyDict.keys (aggregate_spec models ws) `sublist_of` PyDict.keys ws.
Proof.
  unfold aggregate_spec. induction ws as [|[ref sqls] ws IH]; [constructor|].
  rewrite keys_cons. cbn [omap list_omap fst snd].
  destruct (concat_matches models sqls).
  - by apply sublist_cons.
  - rewrite keys_cons. by apply sublist_skip.
Qed.

(** X1: the dashboards of the aggregator's output are dashboards of its
    input, in the order of the input, each once. *)
Theorem parse_tables_keeps_order ws models out :
  PyDict.wf ws → _parse_tables_from_sql ws models = Ok out →
  PyDict.keys out `sublist_of` PyDict.keys ws ∧ PyDict.wf out.
Proof.
  intros Hwf Hp. unfold _parse_tables_from_sql in Hp.
  pose proof (parse_Ok_scans_all _ _ _ _ Hp) as Hall.
  rewrite parse_loop_spec in Hp; [|done|done|intros k _; apply not_elem_of_nil].
  injection Hp as <-. rewrite ?app_nil_l.
  pose proof (keys_aggregate_sublist models ws) as Hsub.
  split; [done|]. unfold PyDict.wf. by eapply sublist_NoDup.
Qed.

(** X2: dashboards are aggregated independently: the output for two
    groups of dashboards is the output for the first followed by the
    output for the second, and an exception in the first group is the
    exception of the whole, whatever the second group holds. *)
Theorem parse_tables_app ws1 ws2 models :
  (∀ out1 out2, PyDict.wf (ws1 ++ ws2) →
     _parse_tables_from_sql ws1 models = Ok out1 →
     _parse_tables_from_sql ws2 models = Ok out2 →
     _parse_tables_from_sql (ws1 ++ ws2) models = Ok (out1 ++ out2))
  ∧ (∀ e, _parse_tables_from_sql ws1 models = Raise e →
     _parse_tables_from_sql (ws1 ++ ws2) models = Raise e).
Proof.
  unfold _parse_tables_from_sql. split.
  - intros out1 out2 Hwf H1 H2.
    pose proof (parse_Ok_scans_all _ _ _ _ H1) as Hall1.
    pose proof (parse_Ok_scans_all _ _ _ _ H2) as Hall2.
    unfold PyDict.wf, PyDict.keys in Hwf. rewrite fmap_app in Hwf.
    apply NoDup_app in Hwf as (Hwf1 & Hdisj & Hwf2).
    rewrite parse_loop_spec in H1; [|done|done|intros k _; apply not_elem_of_nil].
    rewrite parse_loop_spec in H2; [|done|done|intros k _; apply not_elem_of_nil].
    injection H1 as <-. injection H2 as <-. rewrite ?app_nil_l.
    rewrite parse_loop_app, parse_loop_spec;
      [|done|done|intros k _; apply not_elem_of_nil].
    rewrite result_bind_Ok, app_nil_l. apply parse_loop_spec; [done|done|].
    intros k Hk Hk1. apply (Hdisj k); [|done].
    by apply (elem_of_sublist _ _ _ Hk1 (keys_aggregate_sublist models ws1)).
  - intros e H1. by rewrite parse_loop_app, H1.
Qed.

End aggregator_more.

(** ** The merge, as a whole *)

Section merge_more.
Context {R Model : Type} `{Reference R}.
Implicit Types (acc a b : list (R * list Model)) (k : R) (found : list Model).

Lemma get_merge_models a b k :
  PyDict.wf a → PyDict.wf b →
  PyDict.get k (merge_models a b) =
  match PyDict.get k b with
  | Some lb => Some (default [] (PyDict.get k a) ++ lb)
  | None => PyDict.get k a
  end.
Proof.
  intros Ha Hb. unfold merge_models. rewrite foldl_app.
  rewrite (get_foldl_merge _ b k Hb), (get_foldl_merge [] a k Ha).
  simpl. by destruct (PyDict.get k a), (PyDict.get k b).
Qed.

Lemma filter_not_in_snoc (xs ks : list R) k :
  k ∉ ks →
  filter (fun x => x ∉ xs ++ [k]) ks = filter (fun x => x ∉ xs) ks.
Proof.
  induction ks as [|k' ks IH]; intros Hk; [done|].
  apply not_elem_of_cons in Hk as [Hne Hk].
  rewrite !filter_cons, (IH Hk).
  destruct (decide (k' ∈ xs)) as [Hin|Hnin].
  - rewrite (decide_False (P := k' ∉ xs)) by (intros Hn; by apply Hn).
    rewrite decide_False; [done|].
    intros Hn. apply Hn, elem_of_app. by left.
  - rewrite (decide_True (P := k' ∉ xs)) by done.
    rewrite decide_True; [done|].
    intros Hin. apply elem_of_app in Hin as [?|Hin]; [done|].
    apply list_elem_of_singleton in Hin. by apply Hne.
Qed.

Lemma keys_foldl_merge_order acc (l : list (R * list Model)) :
  PyDict.wf l →
  PyDict.keys (foldl merge_step acc l) =
  PyDict.keys acc ++ filter (fun k => k ∉ PyDict.keys acc) (PyDict.keys l).
Proof.
  unfold PyDict.wf. revert acc.
  induction l as [|[k found] l IH]; intros acc Hwf; cbn [foldl].
  - rewrite keys_nil, filter_nil. by rewrite app_nil_r.
  - rewrite keys_cons in Hwf. apply NoDup_cons in Hwf as [Hk Hwf].
    rewrite (IH _ Hwf), keys_merge_step, keys_cons.
    destruct (decide (k ∈ PyDict.keys acc)) as [Hin|Hnin].
    + rewrite filter_cons_False; [done|]. by intros Hn.
    + rewrite filter_cons_True by done. rewrite <- app_assoc. simpl. do 2 f_equal.
      by apply filter_not_in_snoc.
Qed.

(** X3: the exposure loop meets the dashboards of the custom-SQL mapping
    first, in their order, and then those that only the native-SQL
    mapping has, in theirs. *)
Theorem merge_models_key_order a b :
  PyDict.wf a → PyDict.wf b →
  PyDict.keys (merge_models a b) =
  PyDict.keys a ++ filter (fun k => k ∉ PyDict.keys a) (PyDict.keys b).
Proof.
  intros Ha Hb. unfold merge_models. rewrite foldl_app.
  rewrite (keys_foldl_merge_order _ b Hb), (keys_foldl_merge_order [] a Ha).
  rewrite keys_nil, app_nil_l.
  assert (filter (fun k => k ∉ []) (PyDict.keys a) = PyDict.keys a) as ->; [|done].
  induction (PyDict.keys a) as [|k ks IH]; [done|].
  rewrite filter_cons_True by apply not_elem_of_nil. by rewrite IH.
Qed.

Lemma foldl_merge_disjoint acc (l : list (R * list Model)) :
  PyDict.wf l → (∀ k, k ∈ PyDict.keys l → k ∉ PyDict.keys acc) →
  foldl merge_step acc l = acc ++ l.
Proof.
  unfold PyDict.wf. revert acc.
  induction l as [|[k found] l IH]; intros acc Hwf Hdisj; cbn [foldl].
  - by rewrite app_nil_r.
  - rewrite keys_cons in Hwf. apply NoDup_cons in Hwf as [Hk Hwf].
    assert (PyDict.get k acc = None) as Hg.
    { apply get_None, Hdisj. rewrite keys_cons. apply list_elem_of_here. }
    rewrite merge_step_unfold, Hg, IH; [by rewrite <- app_assoc|done|].
    intros k' Hk'. unfold PyDict.keys. rewrite fmap_app. simpl.
    rewrite not_elem_of_app. split.
    + apply Hdisj. rewrite keys_cons. by apply list_elem_of_further.
    + intros Hin. apply list_elem_of_singleton in Hin as ->. by apply Hk.
Qed.

(** X4: when no dashboard is in both mappings the merge is the custom-SQL
    mapping followed by the native-SQL one; in particular merging with an
    empty mapping changes nothing. *)
Theorem merge_models_disjoint a b :
  PyDict.wf (a ++ b) → merge_models a b = a ++ b.
Proof.
  unfold PyDict.wf, PyDict.keys. rewrite fmap_app.
  intros (Ha & Hdisj & Hb)%NoDup_app.
  unfold merge_models. rewrite foldl_app.
  rewrite (foldl_merge_disjoint [] a); [|done|intros k _; apply not_elem_of_nil].
  rewrite app_nil_l. apply foldl_merge_disjoint; [done|].
  intros k Hkb Hka. by apply (Hdisj k).
Qed.

Lemma concat_values_alter found k acc :
  is_Some (PyDict.get k acc) →
  concat (PyDict.values (PyDict.alter (fun l => l ++ found) k acc))
  ≡ₚ concat (PyDict.values acc) ++ found.
Proof.
  unfold PyDict.values. induction acc as [|[k0 v0] acc IH]; simpl.
  - by intros [? ?].
  - destruct (decide (k = k0)) as [->|Hne]; simpl.
    + intros _. rewrite <- !app_assoc. f_equiv. apply Permutation_app_comm.
    + intros Hs. rewrite (IH Hs). by rewrite app_assoc.
Qed.

Lemma concat_values_foldl_merge acc (l : list (R * list Model)) :
  concat (PyDict.values (foldl merge_step acc l))
  ≡ₚ concat (PyDict.values acc) ++ concat (PyDict.values l).
Proof.
  revert acc. induction l as [|[k found] l IH]; intros acc; cbn [foldl].
  - change (PyDict.values (@nil (R * list Model))) with (@nil (list Model)).
    simpl. by rewrite app_nil_r.
  - rewrite IH, merge_step_unfold.
    change (PyDict.values ((k, found) :: l)) with (found :: PyDict.values l).
    cbn [concat]. rewrite app_assoc. f_equiv.
    destruct (PyDict.get k acc) eqn:Hg.
    + apply concat_values_alter. by rewrite Hg.
    + unfold PyDict.values. rewrite fmap_app, concat_app. simpl.
      by rewrite app_nil_r.
Qed.

(** X5: the merge neither drops nor invents a matched record: the records
    of the merged mapping are those of the two mappings together, with
    their multiplicities. *)
Theorem merge_models_conserves a b :
  concat (PyDict.values (merge_models a b))
  ≡ₚ concat (PyDict.values a) ++ concat (PyDict.values b).
Proof.
  unfold merge_models. rewrite foldl_app.
  rewrite !concat_values_foldl_merge. unfold PyDict.values at 1. done.
Qed.

(** X6: merging the two mappings in the other order gives the same
    dashboards, each with the same records up to their order. *)
Theorem merge_models_comm a b k :
  PyDict.wf a → PyDict.wf b →
  (k ∈ PyDict.keys (merge_models a b) ↔ k ∈ PyDict.keys (merge_models b a))
  ∧ option_Forall2 (≡ₚ) (PyDict.get k (merge_models a b))
                         (PyDict.get k (merge_models b a)).
Proof.
  intros Ha Hb. split.
  - unfold merge_models. rewrite !foldl_app, !keys_foldl_merge, keys_nil, elem_of_nil.
    tauto.
  - rewrite !get_merge_models by done.
    destruct (PyDict.get k a) as [la|], (PyDict.get k b) as [lb|]; simpl;
      constructor; try done.
    apply Permutation_app_comm.
Qed.

End merge_more.

(** ** Exclusion and the ignore collection *)

Lemma should_ignore_workbook_subset (workbook : Workbook)
    (ignore ignore' : list string) :
  (∀ name, name ∈ ignore → name ∈ ignore') →
  _should_ignore_workbook workbook ignore = true →
  _should_ignore_workbook workbook ignore' = true.
Proof.
  unfold _should_ignore_workbook.
  destruct (project_name workbook) as [name|]; [|done].
  destruct (negb (str_truthy name)); [done|].
  intros Hsub Hin. apply bool_decide_eq_true. apply bool_decide_eq_true in Hin. auto.
Qed.

(** X7: ignoring more projects never brings a workbook back: a workbook
    ignored under a collection is ignored under every collection that
    holds the same names and more; so the order and the repetitions of
    the names in the collection do not matter. *)
Theorem should_ignore_workbook_monotone (workbook : Workbook)
    (ignore ignore' : list string) :
  ((∀ name, name ∈ ignore → name ∈ ignore') →
     _should_ignore_workbook workbook ignore = true →
     _should_ignore_workbook workbook ignore' = true)
  ∧ ((∀ name, name ∈ ignore ↔ name ∈ ignore') →
     _should_ignore_workbook workbook ignore
     = _should_ignore_workbook workbook ignore').
Proof.
  split; [apply should_ignore_workbook_subset|].
  unfold _should_ignore_workbook.
  destruct (project_name workbook) as [name|]; [|done].
  destruct (negb (str_truthy name)); [done|].
  intros Heq. apply bool_decide_ext, Heq.
Qed.

(** ** The run of the crawler *)

Section crawler_more.
Context {R User Model Models Exposure : Type}.
Context `{Reference R} `{QueryParsing Model Models} `{GraphqlClient R}.
Context `{TableauRestClient User} `{ExposureFactory User Model Exposure}.
Context `{Closing}.
Implicit Types (tr evs : list (event Model Exposure)).
Implicit Types (item : R * list Model) (items : list (R * list Model)).
Implicit Types (pkg method path : string) (ignore : list string).

Lemma workbook_requests_app tr evs :
  workbook_requests (tr ++ evs) = workbook_requests tr ++ workbook_requests evs.
Proof. unfold workbook_requests. apply omap_app. Qed.

(** One iteration: what it records. *)
Lemma build_exposure_trace pkg ignore item tr :
  ∃ evs,
    build_exposure pkg ignore item tr =
      (tr ++ evs, fetch_metadata item ≫= fun _ => Ok tt)
    ∧ exposures_added evs = exposure_calls pkg ignore item
    ∧ workbook_requests evs = [reference_id item.1]
    ∧ Forall (fun ev => loop_event ev = true) evs.
Proof.
  destruct item as [ref found].
  unfold exposure_calls, fetch_metadata. cbn [fst snd].
  destruct (retrieve_workbook (reference_id ref)) as [workbook|e] eqn:Hw.
  - rewrite result_bind_Ok.
    destruct (retrieve_user (owner_id workbook)) as [owner|e] eqn:Hu.
    + rewrite (build_exposure_fetched _ _ _ _ _ _ _ Hw Hu), <- app_assoc.
      eexists. split; [reflexivity|]. simpl.
      destruct (_should_ignore_workbook workbook ignore); simpl;
        split_and!; repeat constructor.
    + exists [EvRetrieveWorkbook (reference_id ref); EvRetrieveUser (owner_id workbook)].
      unfold build_exposure. crawl_unfold. rewrite Hw, Hu, <- app_assoc.
      split_and!; [done|done|done|repeat constructor].
  - exists [EvRetrieveWorkbook (reference_id ref)].
    unfold build_exposure. crawl_unfold. rewrite Hw.
    split_and!; [done|done|done|repeat constructor].
Qed.

(** The loop when the metadata of every dashboard can be fetched. *)
Lemma build_exposures_all_fetched pkg ignore items tr :
  Forall (fun it => is_ok (fetch_metadata it) = true) items →
  ∃ evs,
    build_exposures pkg ignore items tr = (tr ++ evs, Ok tt)
    ∧ exposures_added evs = items ≫= exposure_calls pkg ignore
    ∧ workbook_requests evs = reference_id <$> PyDict.keys items
    ∧ Forall (fun ev => loop_event ev = true) evs.
Proof.
  intros Hall. revert tr. induction Hall as [|it items Hit _ IH]; intros tr.
  - exists []. simpl. rewrite app_nil_r. split_and!; done.
  - rewrite build_exposures_cons.
    destruct (build_exposure_trace pkg ignore it tr) as (evs1 & -> & Hadd1 & Hreq1 & Hev1).
    destruct (fetch_metadata it) as [[wb ow]|] eqn:Hf; [|done]. simpl.
    destruct (IH (tr ++ evs1)) as (evs & -> & Hadd & Hreq & Hev).
    exists (evs1 ++ evs). rewrite app_assoc. destruct it as [ref found].
    split_and!; [done| | |by apply Forall_app].
    + by rewrite exposures_added_app, Hadd1, Hadd.
    + by rewrite workbook_requests_app, Hreq1, Hreq.
Qed.

(** The loop in general: it asks for a first part of the dashboards, in
    order, and records nothing but requests and registrations. *)
Lemma build_exposures_trace pkg ignore items tr :
  ∃ n evs,
    (build_exposures pkg ignore items tr).1 = tr ++ evs
    ∧ workbook_requests evs = reference_id <$> PyDict.keys (take n items)
    ∧ Forall (fun ev => loop_event ev = true) evs.
Proof.
  revert tr. induction items as [|it items IH]; intros tr.
  - exists 0, []. simpl. rewrite app_nil_r. split_and!; done.
  - rewrite build_exposures_cons.
    destruct (build_exposure_trace pkg ignore it tr) as (evs1 & -> & _ & Hreq1 & Hev1).
    destruct it as [ref found].
    destruct (fetch_metadata (ref, found)) as [[wb ow]|e] eqn:Hf; simpl.
    + destruct (IH (tr ++ evs1)) as (n & evs & Htr & Hreq & Hev).
      exists (S n), (evs1 ++ evs). rewrite Htr, app_assoc.
      split_and!; [done| |by apply Forall_app].
      by rewrite workbook_requests_app, Hreq1, Hreq.
    + exists 1, evs1. split_and!; [done| |done].
      by rewrite Hreq1.
Qed.

Lemma loop_event_quiet (ev : event Model Exposure) :
  loop_event ev = true → is_sign_out ev || is_persist ev = false.
Proof. by destruct ev. Qed.

(** The loop returns only when the metadata of every dashboard was
    fetched. *)
Lemma build_exposures_Ok_fetched pkg ignore items tr tr' (u : unit) :
  build_exposures pkg ignore items tr = (tr', Ok u) →
  Forall (fun it => is_ok (fetch_metadata it) = true) items.
Proof.
  revert tr. induction items as [|it items IH]; intros tr Hrun; [constructor|].
  rewrite build_exposures_cons in Hrun.
  destruct (build_exposure_trace pkg ignore it tr) as (evs & Hit & _).
  rewrite Hit in Hrun.
  destruct (fetch_metadata it) as [[wb ow]|e] eqn:Hf; simpl in Hrun; [|done].
  apply Forall_cons. split; [by rewrite Hf|]. by apply (IH _ Hrun).
Qed.

(** How a run ends: before signing out, at a sign-out that raises, or
    with the outcome of persisting after a sign-out that returned. *)
Lemma tableau_crawler_outcome models pkg ignore method path tr0 :
  ∃ body tail,
    (tableau_crawler models pkg ignore method path tr0).1 = tr0 ++ body ++ tail
    ∧ Forall (fun ev => is_sign_out ev || is_persist ev = false) body
    ∧ ((tail = []
        ∧ is_ok (tableau_crawler models pkg ignore method path tr0).2 = false)
       ∨ (tail = [EvSignOut]
          ∧ ∃ e, sign_out = Raise e
                 ∧ (tableau_crawler models pkg ignore method path tr0).2 = Raise e)
       ∨ (tail = [EvSignOut; EvPersist method path]
          ∧ sign_out = Ok tt
          ∧ (tableau_crawler models pkg ignore method path tr0).2
            = persist method path)).
Proof.
  destruct retrieve_custom_sql as [wsc|e1] eqn:Hc.
  2:{ exists [EvRetrieveCustomSql], []. unfold tableau_crawler. crawl_unfold.
      rewrite Hc. simpl. split_and!; [done|repeat constructor|by left]. }
  destruct (_parse_tables_from_sql wsc models) as [a|e2] eqn:Ha.
  2:{ exists [EvRetrieveCustomSql], []. unfold tableau_crawler. crawl_unfold.
      rewrite Hc, Ha. simpl. split_and!; [done|repeat constructor|by left]. }
  destruct retrieve_native_sql as [wsn|e3] eqn:Hn.
  2:{ exists [EvRetrieveCustomSql; EvRetrieveNativeSql], [].
      unfold tableau_crawler. crawl_unfold. rewrite Hc, Ha, Hn. simpl.
      rewrite <- app_assoc. split_and!; [done|repeat constructor|by left]. }
  destruct (_parse_tables_from_sql wsn models) as [b|e4] eqn:Hb.
  2:{ exists [EvRetrieveCustomSql; EvRetrieveNativeSql], [].
      unfold tableau_crawler. crawl_unfold. rewrite Hc, Ha, Hn, Hb. simpl.
      rewrite <- app_assoc. split_and!; [done|repeat constructor|by left]. }
  rewrite (tableau_crawler_merged _ _ _ _ _ _ _ _ _ _ Hc Ha Hn Hb).
  destruct (build_exposures_trace pkg ignore (merge_models a b)
              (tr0 ++ [EvRetrieveCustomSql; EvRetrieveNativeSql]))
    as (n & evs & Htr & _ & Hev).
  assert (Hquiet : Forall (fun ev : event Model Exposure =>
                             is_sign_out ev || is_persist ev = false)
                     ([EvRetrieveCustomSql; EvRetrieveNativeSql] ++ evs)).
  { apply Forall_app. split; [repeat constructor|].
    eapply Forall_impl; [exact Hev|]. apply loop_event_quiet. }
  exists ([EvRetrieveCustomSql; EvRetrieveNativeSql] ++ evs).
  destruct (build_exposures pkg ignore (merge_models a b) _) as [tr' [[]|e]];
    simpl in Htr; subst tr'.
  - destruct sign_out as [[]|e] eqn:Hs.
    + exists [EvSignOut; EvPersist method path]. simpl.
      split_and!; [by rewrite <- !app_assoc|done|by right; right].
    + exists [EvSignOut]. simpl.
      split_and!; [by rewrite <- !app_assoc|done|]. right; left. split; [done|].
      by exists e.
  - exists []. simpl. rewrite app_nil_r.
    split_and!; [by rewrite <- !app_assoc|done|by left].
Qed.

(** X8: sign-out and persist are the last things a run attempts, once
    each and in that order: a run stops before signing out (and then has
    raised), or at a sign-out that raises (with its exception), or it
    persists after a sign-out that returned, and its outcome is then the
    outcome of persisting; nothing is persisted before signing out. *)
Theorem run_signs_out_and_persists_last models pkg ignore method path :
  ∃ body tail,
    (tableau_crawler models pkg ignore method path []).1 = body ++ tail
    ∧ Forall (fun ev => is_sign_out ev || is_persist ev = false) body
    ∧ ((tail = []
        ∧ is_ok (tableau_crawler models pkg ignore method path []).2 = false)
       ∨ (tail = [EvSignOut]
          ∧ ∃ e, sign_out = Raise e
                 ∧ (tableau_crawler models pkg ignore method path []).2 = Raise e)
       ∨ (tail = [EvSignOut; EvPersist method path]
          ∧ sign_out = Ok tt
          ∧ (tableau_crawler models pkg ignore method path []).2
            = persist method path)).
Proof.
  destruct (tableau_crawler_outcome models pkg ignore method path [])
    as (body & tail & Htr & Hbody & Hend).
  exists body, tail. split_and!; [|done|done]. by rewrite Htr.
Qed.

(** X9: a run that returns has left nothing out: both sources were read
    and scanned, the metadata of every merged dashboard was fetched, once
    each and in the order of the merged mapping, the exposures of those
    not excluded were registered in that order, and then the client was
    signed out and the manifest persisted. *)
Theorem returned_run_is_complete models pkg ignore method path tr :
  tableau_crawler models pkg ignore method path [] = (tr, Ok tt) →
  ∃ wsc wsn a b evs,
    retrieve_custom_sql = Ok wsc ∧ _parse_tables_from_sql wsc models = Ok a
    ∧ retrieve_native_sql = Ok wsn ∧ _parse_tables_from_sql wsn models = Ok b
    ∧ Forall (fun it => is_ok (fetch_metadata it) = true) (merge_models a b)
    ∧ tr = [EvRetrieveCustomSql; EvRetrieveNativeSql] ++ evs
             ++ [EvSignOut; EvPersist method path]
    ∧ exposures_added evs = merge_models a b ≫= exposure_calls pkg ignore
    ∧ workbook_requests evs = reference_id <$> PyDict.keys (merge_models a b)
    ∧ Forall (fun ev => loop_event ev = true) evs
    ∧ sign_out = Ok tt ∧ persist method path = Ok tt.
Proof.
  intros Hrun.
  destruct retrieve_custom_sql as [wsc|e1] eqn:Hc;
    [|exfalso; revert Hrun; unfold tableau_crawler; crawl_unfold; by rewrite Hc].
  destruct (_parse_tables_from_sql wsc models) as [a|e2] eqn:Ha;
    [|exfalso; revert Hrun; unfold tableau_crawler; crawl_unfold; by rewrite Hc, Ha].
  destruct retrieve_native_sql as [wsn|e3] eqn:Hn;
    [|exfalso; revert Hrun; unfold tableau_crawler; crawl_unfold;
      by rewrite Hc, Ha, Hn].
  destruct (_parse_tables_from_sql wsn models) as [b|e4] eqn:Hb;
    [|exfalso; revert Hrun; unfold tableau_crawler; crawl_unfold;
      by rewrite Hc, Ha, Hn, Hb].
  rewrite (tableau_crawler_merged _ _ _ _ _ _ _ _ _ _ Hc Ha Hn Hb) in Hrun.
  destruct (build_exposures pkg ignore (merge_models a b) _) as [tr' [[]|e]] eqn:Hloop;
    [|done].
  pose proof (build_exposures_Ok_fetched _ _ _ _ _ _ Hloop) as Hall.
  destruct (build_exposures_all_fetched pkg ignore (merge_models a b)
              ([] ++ [EvRetrieveCustomSql; EvRetrieveNativeSql]) Hall)
    as (evs & Hevs & Hadd & Hreq & Hev).
  rewrite Hloop in Hevs. injection Hevs as ->.
  destruct sign_out as [[]|e]; [|done].
  injection Hrun as <- Hp.
  exists wsc, wsn, a, b, evs. by split_and!.
Qed.

(** X10: metadata is asked for matched dashboards only: the workbook ids
    requested in a run are the ids of a first part of the merged mapping,
    in its order, so a dashboard in neither aggregator output is never
    requested. *)
Theorem run_requests_merged_only models pkg ignore method path wsc wsn a b :
  retrieve_custom_sql = Ok wsc → _parse_tables_from_sql wsc models = Ok a →
  retrieve_native_sql = Ok wsn → _parse_tables_from_sql wsn models = Ok b →
  workbook_requests (tableau_crawler models pkg ignore method path []).1
  `prefix_of` (reference_id <$> PyDict.keys (merge_models a b)).
Proof.
  intros Hc Ha Hn Hb.
  rewrite (tableau_crawler_merged _ _ _ _ _ _ _ _ _ _ Hc Ha Hn Hb).
  destruct (build_exposures_trace pkg ignore (merge_models a b)
              ([] ++ [EvRetrieveCustomSql; EvRetrieveNativeSql]))
    as (n & evs & Htr & Hreq & _).
  assert (Hpre : workbook_requests evs
                 `prefix_of` (reference_id <$> PyDict.keys (merge_models a b))).
  { rewrite Hreq. exists (reference_id <$> PyDict.keys (drop n (merge_models a b))).
    rewrite <- fmap_app. unfold PyDict.keys. by rewrite <- fmap_app, take_drop. }
  destruct (build_exposures pkg ignore (merge_models a b) _) as [tr' [[]|e]];
    simpl in Htr; subst tr'; [destruct sign_out as [[]|e]|];
    simpl; rewrite ?workbook_requests_app; simpl;
    by rewrite ?app_nil_r.
Qed.

(** X11: a failure before the loop ends the run at once: when the
    custom-SQL source cannot be read or scanned the native-SQL source is
    not read, and when either source fails no metadata is requested. *)
Theorem run_fails_before_loop models pkg ignore method path :
  (∀ e, retrieve_custom_sql = Raise e →
     tableau_crawler models pkg ignore method path []
     = ([EvRetrieveCustomSql], Raise e))
  ∧ (∀ wsc e, retrieve_custom_sql = Ok wsc →
       _parse_tables_from_sql wsc models = Raise e →
       tableau_crawler models pkg ignore method path []
       = ([EvRetrieveCustomSql], Raise e))
  ∧ (∀ wsc a e, retrieve_custom_sql = Ok wsc →
       _parse_tables_from_sql wsc models = Ok a →
       retrieve_native_sql = Raise e →
       tableau_crawler models pkg ignore method path []
       = ([EvRetrieveCustomSql; EvRetrieveNativeSql], Raise e))
  ∧ (∀ wsc a wsn e, retrieve_custom_sql = Ok wsc →
       _parse_tables_from_sql wsc models = Ok a →
       retrieve_native_sql = Ok wsn →
       _parse_tables_from_sql wsn models = Raise e →
       tableau_crawler models pkg ignore method path []
       = ([EvRetrieveCustomSql; EvRetrieveNativeSql], Raise e)).
Proof.
  split_and!.
  - intros e Hc. unfold tableau_crawler. crawl_unfold. by rewrite Hc.
  - intros wsc e Hc Ha. unfold tableau_crawler. crawl_unfold. by rewrite Hc, Ha.
  - intros wsc a e Hc Ha Hn. unfold tableau_crawler. crawl_unfold.
    by rewrite Hc, Ha, Hn.
  - intros wsc a wsn e Hc Ha Hn Hb. unfold tableau_crawler. crawl_unfold.
    by rewrite Hc, Ha, Hn, Hb.
Qed.

Lemma exposure_calls_antitone pkg ignore ignore' item :
  (∀ name, name ∈ ignore → name ∈ ignore') →
  exposure_calls pkg ignore' item `sublist_of` exposure_calls pkg ignore item.
Proof.
  intros Hsub. unfold exposure_calls.
  destruct (fetch_metadata item) as [[wb ow]|]; [|constructor].
  destruct (_should_ignore_workbook wb ignore) eqn:Hig.
  - by rewrite (should_ignore_workbook_subset wb ignore ignore' Hsub Hig).
  - destruct (_should_ignore_workbook wb ignore'); [apply sublist_nil_l|done].
Qed.

Lemma build_exposures_antitone pkg ignore ignore' items tr tr' :
  (∀ name, name ∈ ignore → name ∈ ignore') →
  exposures_added tr' `sublist_of` exposures_added tr →
  exposures_added (build_exposures pkg ignore' items tr').1
  `sublist_of` exposures_added (build_exposures pkg ignore items tr).1.
Proof.
  intros Hsub. revert tr tr'. induction items as [|it items IH]; intros tr tr' Htr.
  - done.
  - rewrite !build_exposures_cons.
    destruct (build_exposure_trace pkg ignore it tr) as (evs & -> & Hadd & _).
    destruct (build_exposure_trace pkg ignore' it tr') as (evs' & -> & Hadd' & _).
    assert (exposures_added (tr' ++ evs') `sublist_of` exposures_added (tr ++ evs)).
    { rewrite !exposures_added_app, Hadd, Hadd'.
      apply sublist_app; [done|]. by apply exposure_calls_antitone. }
    destruct (fetch_metadata it) as [[wb ow]|e]; simpl; [by apply IH|done].
Qed.

(** X12: ignoring more projects only removes exposures: the exposures a
    loop registers under a larger ignore collection are, in the same
    order, among those it registers under the smaller one. *)
Theorem more_ignored_fewer_exposures pkg ignore ignore' items :
  (∀ name, name ∈ ignore → name ∈ ignore') →
  exposures_added (build_exposures pkg ignore' items []).1
  `sublist_of` exposures_added (build_exposures pkg ignore items []).1.
Proof. intros Hsub. by apply build_exposures_antitone. Qed.

End crawler_more.

(** ** The command *)

Section command_more.
Context {R User Model Models Exposure Manifest : Type}.
Context `{Reference R} `{QueryParsing Model Models} `{GraphqlClient R}.
Context `{TableauRestClient User} `{ExposureFactory User Model Exposure}.
Context `{DbtManifestLoader Manifest Models} `{Process}.
Context `{Closing}.
Implicit Types (tr : list (command_event Model Exposure)).
Implicit Types (pkg yml_path : string) (ignore : list string) (verbose : bool).

(** The outcomes of the [try] block, by what the two loaders answer. *)
Lemma load_manifest_cases (text yml_path : string) tr :
  match from_json_str text with
  | Ok manifest =>
      load_manifest text yml_path tr
      = (tr ++ [EvFromJsonStr text], Ok (manifest, "save_to_yml", yml_path))
  | Raise e =>
      if is_value_error e then
        match from_file (expanduser (expandvars text)) with
        | Ok manifest =>
            load_manifest text yml_path tr
            = (tr ++ [EvFromJsonStr text; EvFromFile (expanduser (expandvars text))],
               Ok (manifest, "save", expanduser (expandvars text)))
        | Raise e' =>
            load_manifest text yml_path tr
            = (tr ++ [EvFromJsonStr text; EvFromFile (expanduser (expandvars text))],
               Raise e')
        end
      else load_manifest text yml_path tr = (tr ++ [EvFromJsonStr text], Raise e)
  end.
Proof.
  unfold load_manifest.
  destruct (from_json_str text) as [manifest|e]; [done|].
  destruct (is_value_error e); [|done].
  unfold call. rewrite <- app_assoc.
  by destruct (from_file (expanduser (expandvars text))).
Qed.

(** The loaders record no event of the crawl. *)
Lemma load_manifest_no_crawl (text yml_path : string) tr :
  ∃ evs, (load_manifest text yml_path tr).1 = tr ++ evs
         ∧ Forall (fun ev => is_crawl ev = false) evs.
Proof.
  pose proof (load_manifest_cases text yml_path tr) as Hl.
  destruct (from_json_str text) as [manifest|e].
  - rewrite Hl. eexists. split; [reflexivity|repeat constructor].
  - destruct (is_value_error e).
    + destruct (from_file _); rewrite Hl; eexists;
        (split; [reflexivity|repeat constructor]).
    + rewrite Hl. eexists. split; [reflexivity|repeat constructor].
Qed.

(** The command after the [try] block. *)
Lemma command_after_load (text pkg : string) ignore verbose yml_path tr
    tr1 manifest method path :
  load_manifest text yml_path tr = (tr1, Ok (manifest, method, path)) →
  tableau_crawler_command text pkg ignore verbose yml_path tr =
  match retrieve_models_and_sources manifest with
  | Raise e => (tr1, Raise e)
  | Ok models =>
      match environ "TABLEAU_URL", environ "TABLEAU_USERNAME",
            environ "TABLEAU_PASSWORD", environ "TABLEAU_SITE" with
      | Some url, Some username, Some password, Some site =>
          match connect url username password site with
          | Ok _ =>
              embed (tableau_crawler models pkg ignore method path)
                    (tr1 ++ [EvConnect url username password site])
          | Raise e => (tr1 ++ [EvConnect url username password site], Raise e)
          end
      | _, _, _, _ => (tr1, Raise "KeyError")
      end
  end.
Proof.
  intros Hl. unfold tableau_crawler_command. crawl_unfold. rewrite Hl.
  destruct (retrieve_models_and_sources manifest) as [models|e]; [|done].
  unfold environ_get.
  destruct (environ "TABLEAU_URL") as [url|]; [|done].
  destruct (environ "TABLEAU_USERNAME") as [username|]; [|done].
  destruct (environ "TABLEAU_PASSWORD") as [password|]; [|done].
  destruct (environ "TABLEAU_SITE") as [site|]; [|done].
  by destruct (connect url username password site) as [[]|e].
Qed.

(** X13: when the manifest cannot be loaded the command raises the
    loader's exception and nothing else is attempted: an exception of
    [from_json_str] that is not a [ValueError] leaves without [from_file]
    being tried, and an exception of [from_file] leaves as it is. *)
Theorem command_manifest_unreadable (text pkg : string) ignore verbose yml_path :
  (∀ e, from_json_str text = Raise e → is_value_error e = false →
     tableau_crawler_command text pkg ignore verbose yml_path []
     = ([EvFromJsonStr text], Raise e))
  ∧ (∀ e e', from_json_str text = Raise e → is_value_error e = true →
       from_file (expanduser (expandvars text)) = Raise e' →
       tableau_crawler_command text pkg ignore verbose yml_path []
       = ([EvFromJsonStr text; EvFromFile (expanduser (expandvars text))],
          Raise e')).
Proof.
  split.
  - intros e Hj Hv. pose proof (load_manifest_cases text yml_path []) as Hl.
    rewrite Hj, Hv in Hl. unfold tableau_crawler_command. crawl_unfold.
    by rewrite Hl.
  - intros e e' Hj Hv Hf. pose proof (load_manifest_cases text yml_path []) as Hl.
    rewrite Hj, Hv, Hf in Hl. unfold tableau_crawler_command. crawl_unfold.
    by rewrite Hl.
Qed.

(** X14: when one of the four [TABLEAU_] variables is not set, the
    command raises [KeyError] once the manifest is loaded and its models
    are read, before the client is constructed: nothing is asked of
    Tableau. *)
Theorem command_missing_credentials (text pkg : string) ignore verbose yml_path
    tr manifest method path models :
  load_manifest text yml_path [] = (tr, Ok (manifest, method, path)) →
  retrieve_models_and_sources manifest = Ok models →
  environ "TABLEAU_URL" = None ∨ environ "TABLEAU_USERNAME" = None
  ∨ environ "TABLEAU_PASSWORD" = None ∨ environ "TABLEAU_SITE" = None →
  tableau_crawler_command text pkg ignore verbose yml_path [] = (tr, Raise "KeyError").
Proof.
  intros Hl Hm Henv. rewrite (command_after_load _ _ _ _ _ _ _ _ _ _ Hl), Hm.
  destruct (environ "TABLEAU_URL"), (environ "TABLEAU_USERNAME"),
    (environ "TABLEAU_PASSWORD"), (environ "TABLEAU_SITE"); try done.
  by destruct Henv as [?|[?|[?|?]]].
Qed.

(** X15: a command that returns has persisted the manifest as its last
    step: with [save_to_yml] to [yml_path] when its first argument was
    the JSON text of a manifest, and with [save] to the expanded path it
    was given otherwise, that is, over the manifest file it has read. *)
Theorem command_persist_target (text pkg : string) ignore verbose yml_path tr :
  tableau_crawler_command text pkg ignore verbose yml_path [] = (tr, Ok tt) →
  ∃ tr' method path,
    tr = tr' ++ [EvCrawl EvSignOut; EvCrawl (EvPersist method path)]
    ∧ ((∃ manifest, from_json_str text = Ok manifest
          ∧ method = "save_to_yml" ∧ path = yml_path)
       ∨ (∃ e manifest, from_json_str text = Raise e ∧ is_value_error e = true
            ∧ from_file (expanduser (expandvars text)) = Ok manifest
            ∧ method = "save" ∧ path = expanduser (expandvars text))).
Proof.
  intros Hrun.
  assert (∃ tr1 manifest method path,
            load_manifest text yml_path [] = (tr1, Ok (manifest, method, path))
            ∧ ((∃ manifest, from_json_str text = Ok manifest
                  ∧ method = "save_to_yml" ∧ path = yml_path)
               ∨ (∃ e manifest, from_json_str text = Raise e ∧ is_value_error e = true
                    ∧ from_file (expanduser (expandvars text)) = Ok manifest
                    ∧ method = "save" ∧ path = expanduser (expandvars text))))
    as (tr1 & manifest & method & path & Hl & Htarget).
  { pose proof (load_manifest_cases text yml_path []) as Hl.
    destruct (from_json_str text) as [manifest|e] eqn:Hj.
    - eexists _, _, _, _. split; [exact Hl|]. left. by exists manifest.
    - destruct (is_value_error e) eqn:Hv.
      + destruct (from_file (expanduser (expandvars text))) as [manifest|e'] eqn:Hf.
        * eexists _, _, _, _. split; [exact Hl|]. right. by exists e, manifest.
        * exfalso. unfold tableau_crawler_command in Hrun. revert Hrun.
          crawl_unfold. by rewrite Hl.
      + exfalso. unfold tableau_crawler_command in Hrun. revert Hrun.
        crawl_unfold. by rewrite Hl. }
  rewrite (command_after_load _ _ _ _ _ _ _ _ _ _ Hl) in Hrun.
  destruct (retrieve_models_and_sources manifest) as [models|]; [|done].
  destruct (environ "TABLEAU_URL") as [url|]; [|done].
  destruct (environ "TABLEAU_USERNAME") as [username|]; [|done].
  destruct (environ "TABLEAU_PASSWORD") as [password|]; [|done].
  destruct (environ "TABLEAU_SITE") as [site|]; [|done].
  destruct (connect url username password site) as [[]|]; [|done].
  unfold embed in Hrun.
  destruct (tableau_crawler_outcome models pkg ignore method path [])
    as (body & tail & Htr & _ & Hend).
  destruct (tableau_crawler models pkg ignore method path []) as [crawled [[]|e]];
    [|by injection Hrun].
  simpl in Htr, Hend. injection Hrun as <-.
  destruct Hend as [[_ ?]|[(_ & e & _ & ?)|(-> & _)]]; [done|done|].
  exists ((tr1 ++ [EvConnect url username password site]) ++ (EvCrawl <$> body)),
    method, path.
  split; [|done]. by rewrite Htr, fmap_app, app_assoc.
Qed.

(** X16: Tableau is contacted last: in every run of the command the
    events of the crawl come after all others, and there are none unless
    the four variables are set and the client was constructed from
    them. *)
Theorem command_crawls_last (text pkg : string) ignore verbose yml_path :
  ∃ pre crawled,
    (tableau_crawler_command text pkg ignore verbose yml_path []).1
    = pre ++ (EvCrawl <$> crawled)
    ∧ Forall (fun ev => is_crawl ev = false) pre
    ∧ (crawled = []
       ∨ ∃ pre' url username password site,
           pre = pre' ++ [EvConnect url username password site]
           ∧ environ "TABLEAU_URL" = Some url
           ∧ environ "TABLEAU_USERNAME" = Some username
           ∧ environ "TABLEAU_PASSWORD" = Some password
           ∧ environ "TABLEAU_SITE" = Some site
           ∧ connect url username password site = Ok tt).
Proof.
  destruct (load_manifest_no_crawl text yml_path []) as (evs & Hevs & Hquiet).
  simpl in Hevs.
  destruct (load_manifest text yml_path []) as [tr1 [[[manifest method] path]|e]] eqn:Hl;
    simpl in Hevs; subst tr1.
  2:{ exists evs, []. unfold tableau_crawler_command. crawl_unfold. rewrite Hl.
      simpl. rewrite app_nil_r. split_and!; [done|done|by left]. }
  rewrite (command_after_load _ _ _ _ _ _ _ _ _ _ Hl).
  assert (Hstop : ∀ e : string, ∃ pre crawled,
            (evs, @Raise unit e).1 = pre ++ (EvCrawl <$> crawled)
            ∧ Forall (fun ev => is_crawl ev = false) pre
            ∧ (crawled = []
               ∨ ∃ pre' url username password site,
                   pre = pre' ++ [EvConnect url username password site]
                   ∧ environ "TABLEAU_URL" = Some url
                   ∧ environ "TABLEAU_USERNAME" = Some username
                   ∧ environ "TABLEAU_PASSWORD" = Some password
                   ∧ environ "TABLEAU_SITE" = Some site
                   ∧ connect url username password site = Ok tt)).
  { intros e. exists evs, []. simpl. rewrite app_nil_r. split_and!; [done|done|by left]. }
  destruct (retrieve_models_and_sources manifest) as [models|]; [|apply Hstop].
  destruct (environ "TABLEAU_URL") as [url|] eqn:Hurl; [|apply Hstop].
  destruct (environ "TABLEAU_USERNAME") as [username|] eqn:Huser; [|apply Hstop].
  destruct (environ "TABLEAU_PASSWORD") as [password|] eqn:Hpw; [|apply Hstop].
  destruct (environ "TABLEAU_SITE") as [site|] eqn:Hsite; [|apply Hstop].
  assert (Hpre : Forall (fun ev : command_event Model Exposure => is_crawl ev = false)
                   (evs ++ [EvConnect url username password site]))
    by (apply Forall_app; split; [done|repeat constructor]).
  destruct (connect url username password site) as [[]|e] eqn:Hconn.
  - unfold embed.
    destruct (tableau_crawler models pkg ignore method path []) as [crawled outcome].
    exists (evs ++ [EvConnect url username password site]), crawled.
    split_and!; [done|done|]. right. by exists evs, url, username, password, site.
  - exists (evs ++ [EvConnect url username password site]), []. simpl.
    rewrite app_nil_r. split_and!; [done|done|by left].
Qed.

End command_more.

(** ** The further properties, evaluated *)

Section more_runs.
Import Scenario QuerySpec.

Lemma parse_tables_keeps_order_witness :
  PyDict.keys custom_models `sublist_of` PyDict.keys custom_sqls.
Proof.
  assert (PyDict.wf custom_sqls) as Hwf
    by (unfold PyDict.wf; apply (bool_decide_unpack _); vm_compute; exact I).
  assert (_parse_tables_from_sql custom_sqls registry = Ok custom_models) as Hp
    by (vm_compute; reflexivity).
  exact (proj1 (parse_tables_keeps_order custom_sqls registry custom_models Hwf Hp)).
Defined.

Lemma parse_tables_app_witness :
  _parse_tables_from_sql
    ([(dash_A, ["select * from orders"])] ++ [(dash_B, ["select * from stg_orders"])])
    registry
  = Ok ([(dash_A, [orders])] ++ [(dash_B, [stg_orders])]).
Proof.
  assert (PyDict.wf ([(dash_A, ["select * from orders"])]
                     ++ [(dash_B, ["select * from stg_orders"])])) as Hwf
    by (unfold PyDict.wf; apply (bool_decide_unpack _); vm_compute; exact I).
  assert (_parse_tables_from_sql [(dash_A, ["select * from orders"])] registry
          = Ok [(dash_A, [orders])]) as H1 by (vm_compute; reflexivity).
  assert (_parse_tables_from_sql [(dash_B, ["select * from stg_orders"])] registry
          = Ok [(dash_B, [stg_orders])]) as H2 by (vm_compute; reflexivity).
  exact (proj1 (parse_tables_app [(dash_A, ["select * from orders"])]
                  [(dash_B, ["select * from stg_orders"])] registry)
           [(dash_A, [orders])] [(dash_B, [stg_orders])] Hwf H1 H2).
Defined.

Lemma merge_models_key_order_witness :
  PyDict.keys (merge_models custom_models native_models)
  = PyDict.keys custom_models
    ++ filter (fun k => k ∉ PyDict.keys custom_models) (PyDict.keys native_models).
Proof.
  assert (PyDict.wf custom_models) as Ha
    by (unfold PyDict.wf; apply (bool_decide_unpack _); vm_compute; exact I).
  assert (PyDict.wf native_models) as Hb
    by (unfold PyDict.wf; apply (bool_decide_unpack _); vm_compute; exact I).
  exact (merge_models_key_order custom_models native_models Ha Hb).
Defined.

Lemma merge_models_disjoint_witness :
  merge_models custom_models [(dash_C, [stg_orders])]
  = custom_models ++ [(dash_C, [stg_orders])].
Proof.
  assert (PyDict.wf (custom_models ++ [(dash_C, [stg_orders])])) as Hwf
    by (unfold PyDict.wf; apply (bool_decide_unpack _); vm_compute; exact I).
  exact (merge_models_disjoint custom_models [(dash_C, [stg_orders])] Hwf).
Defined.

Lemma merge_models_comm_witness :
  option_Forall2 (≡ₚ) (PyDict.get dash_A (merge_models custom_models native_models))
                       (PyDict.get dash_A (merge_models native_models custom_models)).
Proof.
  assert (PyDict.wf custom_models) as Ha
    by (unfold PyDict.wf; apply (bool_decide_unpack _); vm_compute; exact I).
  assert (PyDict.wf native_models) as Hb
    by (unfold PyDict.wf; apply (bool_decide_unpack _); vm_compute; exact I).
  exact (proj2 (merge_models_comm custom_models native_models dash_A Ha Hb)).
Defined.

Lemma should_ignore_workbook_monotone_witness :
  _should_ignore_workbook (mkWorkbook "Finance" (Some "Finance") "u1")
    ["Sales"; "Finance"] = true.
Proof.
  apply (proj1 (should_ignore_workbook_monotone
                  (mkWorkbook "Finance" (Some "Finance") "u1")
                  ["Finance"] ["Sales"; "Finance"])).
  - intros name Hin. by apply list_elem_of_further.
  - reflexivity.
Defined.

Lemma returned_run_is_complete_witness :
  ∃ evs,
    (@tableau_crawler _ _ _ _ _ _ _ Healthy.graphql_client _ _ _
       registry "pkg" ["Finance"] "save" "target/manifest.json" []).1
    = [EvRetrieveCustomSql; EvRetrieveNativeSql] ++ evs
        ++ [EvSignOut; EvPersist "save" "target/manifest.json"]
    ∧ workbook_requests evs = ["A"; "B"; "C"].
Proof.
  assert (@tableau_crawler _ _ _ _ _ _ _ Healthy.graphql_client _ _ _
            registry "pkg" ["Finance"] "save" "target/manifest.json" []
          = ((@tableau_crawler _ _ _ _ _ _ _ Healthy.graphql_client _ _ _
                registry "pkg" ["Finance"] "save" "target/manifest.json" []).1,
             Ok tt)) as Hrun by (vm_compute; reflexivity).
  destruct (@returned_run_is_complete _ _ _ _ _ _ _ Healthy.graphql_client _ _ _
              registry "pkg" ["Finance"] "save" "target/manifest.json" _ Hrun)
    as (wsc & wsn & a & b & evs & Hc & Ha & Hn & Hb & _ & Htr & _ & Hreq & _).
  exists evs. split; [exact Htr|].
  rewrite Hreq. injection Hc as <-. injection Hn as <-.
  vm_compute in Ha. injection Ha as <-.
  vm_compute in Hb. injection Hb as <-.
  vm_compute. reflexivity.
Defined.

Lemma run_requests_merged_only_witness :
  workbook_requests
    (tableau_crawler registry "pkg" ["Finance"] "save" "target/manifest.json" []).1
  `prefix_of` (reference_id <$> PyDict.keys (merge_models custom_models native_models)).
Proof.
  assert (_parse_tables_from_sql custom_sqls registry = Ok custom_models)
    as Ha by (vm_compute; reflexivity).
  assert (_parse_tables_from_sql native_sqls registry = Ok native_models)
    as Hb by (vm_compute; reflexivity).
  exact (run_requests_merged_only registry "pkg" ["Finance"] "save"
           "target/manifest.json" custom_sqls native_sqls custom_models native_models
           eq_refl Ha eq_refl Hb).
Defined.

Lemma run_fails_before_loop_witness :
  @tableau_crawler _ string _ _ (DbtExposure.Exposure string) _ _
    Outage.graphql_client _ _ _
    registry "pkg" ["Finance"] "save" "target/manifest.json" []
  = ([EvRetrieveCustomSql], Raise "ConnectionError").
Proof.
  exact (proj1 (@run_fails_before_loop _ string _ _ (DbtExposure.Exposure string) _ _
                  Outage.graphql_client _ _ _
                  registry "pkg" ["Finance"] "save" "target/manifest.json")
           "ConnectionError" eq_refl).
Defined.

Lemma more_ignored_fewer_exposures_witness :
  exposures_added
    (build_exposures "pkg" ["Finance"]
       (merge_models Healthy.custom_models Healthy.native_models) []).1
  `sublist_of`
  exposures_added
    (build_exposures "pkg" []
       (merge_models Healthy.custom_models Healthy.native_models) []).1.
Proof.
  apply (more_ignored_fewer_exposures "pkg" [] ["Finance"]).
  intros name Hin. by apply elem_of_nil in Hin.
Defined.

Lemma command_manifest_unreadable_witness :
  @tableau_crawler_command _ _ _ _ _ _ _ _ Healthy.graphql_client _ _
    Healthy.manifest_loader Healthy.process _
    "nowhere.json" "pkg" ["Finance"] false "exposures.yml" []
  = ([EvFromJsonStr "nowhere.json"; EvFromFile "nowhere.json"],
     Raise "FileNotFoundError").
Proof.
  exact (proj2 (@command_manifest_unreadable _ _ _ _ _ _ _ _ Healthy.graphql_client _ _
                  Healthy.manifest_loader Healthy.process _
                  "nowhere.json" "pkg" ["Finance"] false "exposures.yml")
           "JSONDecodeError" "FileNotFoundError" eq_refl eq_refl eq_refl).
Defined.

Lemma command_missing_credentials_witness :
  @tableau_crawler_command _ _ _ _ _ _ _ _ Healthy.graphql_client _ _
    Healthy.manifest_loader Healthy.process_without_site _
    "{}" "pkg" ["Finance"] false "exposures.yml" []
  = ([EvFromJsonStr "{}"], Raise "KeyError").
Proof.
  refine (@command_missing_credentials _ _ _ _ _ _ _ _ Healthy.graphql_client _ _
            Healthy.manifest_loader Healthy.process_without_site _
            "{}" "pkg" ["Finance"] false "exposures.yml"
            [EvFromJsonStr "{}"] registry "save_to_yml" "exposures.yml" registry
            eq_refl eq_refl _).
  right. right. right. reflexivity.
Defined.

Lemma command_persist_target_witness :
  ∃ tr' method path,
    (@tableau_crawler_command _ _ _ _ _ _ _ _ Healthy.graphql_client _ _
       Healthy.manifest_loader Healthy.process _
       "target/manifest.json" "pkg" ["Finance"] false "exposures.yml" []).1
    = tr' ++ [EvCrawl EvSignOut; EvCrawl (EvPersist method path)]
    ∧ method = "save" ∧ path = "target/manifest.json".
Proof.
  assert (@tableau_crawler_command _ _ _ _ _ _ _ _ Healthy.graphql_client _ _
            Healthy.manifest_loader Healthy.process _
            "target/manifest.json" "pkg" ["Finance"] false "exposures.yml" []
          = ((@tableau_crawler_command _ _ _ _ _ _ _ _ Healthy.graphql_client _ _
                Healthy.manifest_loader Healthy.process _
                "target/manifest.json" "pkg" ["Finance"] false "exposures.yml" []).1,
             Ok tt)) as Hrun by (vm_compute; reflexivity).
  destruct (@command_persist_target _ _ _ _ _ _ _ _ Healthy.graphql_client _ _
              Healthy.manifest_loader Healthy.process _
              "target/manifest.json" "pkg" ["Finance"] false "exposures.yml" _ Hrun)
    as (tr' & method & path & Htr & [(m & Hj & _)|(e & m & _ & _ & _ & Hm & Hp)]).
  - discriminate Hj.
  - exists tr', method, path. split_and!; [exact Htr|exact Hm|exact Hp].
Defined.

End more_runs.
